(** * Backtrace symbolization in [src/utils.cc]

    A shallow embedding of [parse_backtrace_line], [demangle_cpp_name],
    [run_addr2line] and [print_backtrace].

    The C code works on NUL-terminated character buffers through [char *]
    pointers and cuts the input line into fields by overwriting delimiters
    with ['\0'].  The embedding keeps that shape: a buffer is a list of
    characters, a pointer is an offset (in [Z]) from the start of the
    buffer, every read and write is bounds-checked, and an access outside
    the buffer is reported as [Oob] together with the offending offset. *)

From Stdlib Require Import ZArith Ascii String List Bool Lia.
From Stdlib Require Import DecimalString.
From Equations Require Import Equations.
Import ListNotations.
Open Scope Z_scope.

(** ** Characters, buffers and pointers *)

Definition text := list ascii.
Definition buffer := list ascii.
Definition ptr := Z.

Definition NUL : ascii := Ascii.zero.
Definition LF : ascii := ascii_of_nat 10.

Definition chars (s : string) : text := list_ascii_of_string s.

Fixpoint text_eqb (s t : text) : bool :=
  match s, t with
  | [], [] => true
  | x :: s', y :: t' => Ascii.eqb x y && text_eqb s' t'
  | _, _ => false
  end.

(** The bytes of a C string object: the characters, then the terminator. *)
Definition c_object (s : text) : buffer := s ++ [NUL].

(** A text is a C string when it holds no NUL. *)
Definition is_cstring (s : text) : Prop := ~ In NUL s.

(** ** Results of memory-touching code *)

(** [Oob p]: an access at offset [p], outside the buffer.  [Null]: a NULL
    pointer handed to a conversion that reads through it.  Both are
    undefined behaviour in C. *)
Inductive res (A : Type) : Type :=
| Ok (a : A)
| Oob (p : ptr)
| Null.
Arguments Ok {A} a.
Arguments Oob {A} p.
Arguments Null {A}.

Definition res_bind {A B} (r : res A) (k : A -> res B) : res B :=
  match r with
  | Ok a => k a
  | Oob p => Oob p
  | Null => Null
  end.

Declare Scope res_scope.
Delimit Scope res_scope with res.
Notation "x <- e ;; k" := (res_bind e (fun x => k))
  (at level 61, e at next level, right associativity) : res_scope.
Open Scope res_scope.

Definition in_bounds (b : buffer) (p : ptr) : bool :=
  (0 <=? p) && (p <? Z.of_nat (length b)).

(** [*p] as an rvalue. *)
Definition load (b : buffer) (p : ptr) : res ascii :=
  if in_bounds b p then Ok (nth (Z.to_nat p) b NUL) else Oob p.

Fixpoint poke (b : buffer) (n : nat) (c : ascii) : buffer :=
  match b, n with
  | [], _ => []
  | _ :: t, O => c :: t
  | x :: t, S n' => x :: poke t n' c
  end.

(** [*p = c]. *)
Definition store (b : buffer) (p : ptr) (c : ascii) : res buffer :=
  if in_bounds b p then Ok (poke b (Z.to_nat p) c) else Oob p.

(** The scan of [strchr]: the first occurrence of [c] at or after the
    current position and not after the terminator.  Running off the end of
    the buffer without meeting a terminator is an out-of-bounds read. *)
Fixpoint scan (s : list ascii) (p : ptr) (c : ascii) : res (option ptr) :=
  match s with
  | [] => Oob p
  | x :: s' =>
      if Ascii.eqb x c then Ok (Some p)
      else if Ascii.eqb x NUL then Ok None
      else scan s' (p + 1) c
  end.

Definition strchr (b : buffer) (p : ptr) (c : ascii) : res (option ptr) :=
  if in_bounds b p then scan (skipn (Z.to_nat p) b) p c else Oob p.

(** The characters a ["%s"] conversion, [strlen] or [strcmp] reads from a
    position: everything before the first terminator. *)
Fixpoint until_nul (s : list ascii) (p : ptr) : res text :=
  match s with
  | [] => Oob p
  | x :: s' =>
      if Ascii.eqb x NUL then Ok []
      else t <- until_nul s' (p + 1) ;; Ok (x :: t)
  end.

Definition c_str (b : buffer) (p : ptr) : res text :=
  if in_bounds b p then until_nul (skipn (Z.to_nat p) b) p else Oob p.

Definition strlen (b : buffer) (p : ptr) : res Z :=
  t <- c_str b p ;; Ok (Z.of_nat (length t)).

(** ** [parse_backtrace_line] *)

(** The four out-parameters; [None] is the NULL pointer. *)
Record fields : Type := mkFields {
  filename : ptr;
  function : option ptr;
  offset : option ptr;
  address : ptr
}.

(** [Ok None] is [return false]; [Ok (Some (f, b))] is [return true] with
    out-parameters [f] and the buffer as the function leaves it. *)
Abbreviation parsed := (option (fields * buffer)).

(** From "We are now at the opening bracket of the address" to the end. *)
Definition parse_address (mem : buffer) (file : ptr) (func off : option ptr)
    (line : ptr) : res parsed :=
  c <- load mem line ;;
  if negb (Ascii.eqb c "[") then Ok None else
  let line := line + 1 in
  let addr := line in
  close <- strchr mem line "]" ;;
  match close with
  | None => Ok None
  | Some line =>
      c <- load mem (line + 1) ;;
      if negb (Ascii.eqb c NUL) then Ok None else
      mem <- store mem line NUL ;;
      Ok (Some (mkFields file func off addr, mem))
  end.

Definition parse_backtrace_line (mem : buffer) : res parsed :=
  let line := 0 in
  let file := line in
  open <- strchr mem line "(" ;;
  match open with
  | Some paren1 =>
      close <- strchr mem line ")" ;;
      match close with
      | None => Ok None
      | Some paren2 =>
          mem <- store mem paren2 NUL ;;
          mem <- store mem paren1 NUL ;;
          let func := paren1 + 1 in
          plus <- strchr mem func "+" ;;
          match plus with
          | None => Ok None
          | Some plus =>
              mem <- store mem plus NUL ;;
              let off := plus + 1 in
              let line := paren2 + 1 in
              c <- load mem line ;;
              if negb (Ascii.eqb c " ") then Ok None else
              parse_address mem file (Some func) (Some off) (line + 1)
          end
      end
  | None =>
      bracket <- strchr mem line "[" ;;
      match bracket with
      | None => Ok None
      | Some bracket =>
          let line := bracket - 1 in
          c <- load mem line ;;
          if negb (Ascii.eqb c " ") then Ok None else
          mem <- store mem line NUL ;;
          parse_address mem file None None (line + 1)
      end
  end.

(** The four fields as the caller's ["%s"] conversions read them. *)
Record symbol : Type := mkSymbol {
  sym_module : text;
  sym_function : option text;
  sym_offset : option text;
  sym_address : text
}.

Definition c_str_opt (b : buffer) (p : option ptr) : res (option text) :=
  match p with
  | None => Ok None
  | Some p => t <- c_str b p ;; Ok (Some t)
  end.

Definition read_fields (f : fields) (b : buffer) : res symbol :=
  m <- c_str b (filename f) ;;
  fn <- c_str_opt b (function f) ;;
  off <- c_str_opt b (offset f) ;;
  a <- c_str b (address f) ;;
  Ok (mkSymbol m fn off a).

(** [scoped_malloc<char> line(symbols[i], symbols[i] + (strlen(symbols[i]) + 1))]:
    a private copy of the descriptor, terminator included. *)
Definition scoped_copy (symbol_i : text) : res buffer :=
  let src := c_object symbol_i in
  n <- strlen src 0 ;;
  Ok (firstn (Z.to_nat (n + 1)) src).

(** Parsing a raw symbol line held in its own buffer, and reading the
    fields back. *)
Definition parse (line : text) : res (option symbol) :=
  mem <- scoped_copy line ;;
  r <- parse_backtrace_line mem ;;
  match r with
  | None => Ok None
  | Some (f, b) => s <- read_fields f b ;; Ok (Some s)
  end.

(** ** The process environment *)

(** What [print_backtrace] has written to [out] and the commands it has
    handed to [popen], both in order. *)
Record world : Type := mkWorld {
  out : text;
  spawned : list text
}.

Definition IO (A : Type) : Type := world -> res (A * world).

Definition io_ret {A} (a : A) : IO A := fun w => Ok (a, w).

Definition io_bind {A B} (m : IO A) (k : A -> IO B) : IO B :=
  fun w =>
    match m w with
    | Ok (a, w') => k a w'
    | Oob p => Oob p
    | Null => Null
    end.

Definition lift {A} (r : res A) : IO A :=
  fun w =>
    match r with
    | Ok a => Ok (a, w)
    | Oob p => Oob p
    | Null => Null
    end.

Declare Scope io_scope.
Delimit Scope io_scope with io.
Notation "x <- e ;; k" := (io_bind e (fun x => k))
  (at level 61, e at next level, right associativity) : io_scope.
Notation "e ;; k" := (io_bind e (fun _ => k))
  (at level 61, right associativity) : io_scope.

(** [fprintf(out, "%s", s)] and the literal pieces of the format strings. *)
Definition fputs (s : text) : IO unit :=
  fun w => Ok (tt, mkWorld (out w ++ s) (spawned w)).

(** ["%d"] of a non-negative [int]. *)
Definition dec (n : nat) : text :=
  chars (NilZero.string_of_uint (Nat.to_uint n)).

(** ** Stand-ins for the external tools in concrete runs *)

(** A fragment of the Itanium C++ name encoding, enough to stand in for
    [abi::__cxa_demangle] on concrete runs: [_Z], one length-prefixed
    identifier, then parameter types built from the one-letter builtin
    codes, [P] (pointer) and [R] (reference).  Anything else is reported
    as not demangled. *)
Module Itanium.

Definition builtins : list (ascii * string) :=
  [("v"%char, "void"%string);
   ("w"%char, "wchar_t"%string);
   ("b"%char, "bool"%string);
   ("c"%char, "char"%string);
   ("a"%char, "signed char"%string);
   ("h"%char, "unsigned char"%string);
   ("s"%char, "short"%string);
   ("t"%char, "unsigned short"%string);
   ("i"%char, "int"%string);
   ("j"%char, "unsigned int"%string);
   ("l"%char, "long"%string);
   ("m"%char, "unsigned long"%string);
   ("x"%char, "long long"%string);
   ("y"%char, "unsigned long long"%string);
   ("f"%char, "float"%string);
   ("d"%char, "double"%string);
   ("e"%char, "long double"%string)].

Definition builtin (c : ascii) : option string :=
  match find (fun e => Ascii.eqb (fst e) c) builtins with
  | Some e => Some (snd e)
  | None => None
  end.

Definition digit (c : ascii) : option nat :=
  let n := nat_of_ascii c in
  if ((48 <=? n) && (n <=? 57))%nat then Some (n - 48)%nat else None.

Fixpoint number (s : text) (acc : nat) : nat * text :=
  match s with
  | c :: s' =>
      match digit c with
      | Some d => number s' (10 * acc + d)%nat
      | None => (acc, s)
      end
  | [] => (acc, s)
  end.

(** One parameter type and the rest of the input. *)
Fixpoint type (s : text) : option (text * text) :=
  match s with
  | [] => None
  | c :: s' =>
      if Ascii.eqb c "P" then
        match type s' with
        | Some (t, r) => Some (t ++ chars "*", r)
        | None => None
        end
      else if Ascii.eqb c "R" then
        match type s' with
        | Some (t, r) => Some (t ++ chars "&", r)
        | None => None
        end
      else
        match builtin c with
        | Some t => Some (chars t, s')
        | None => None
        end
  end.

Fixpoint types (fuel : nat) (s : text) : option (list text) :=
  match fuel with
  | O => None
  | S fuel' =>
      match s with
      | [] => Some []
      | _ =>
          match type s with
          | Some (t, r) =>
              match types fuel' r with
              | Some ts => Some (t :: ts)
              | None => None
              end
          | None => None
          end
      end
  end.

Fixpoint commas (ts : list text) : text :=
  match ts with
  | [] => []
  | [t] => t
  | t :: ts' => t ++ chars ", " ++ commas ts'
  end.

Definition demangle (mangled : text) : option text :=
  match mangled with
  | "_"%char :: "Z"%char :: s =>
      match number s 0 with
      | (O, _) => None
      | (n, r) =>
          if (length r <? n)%nat then None else
          let name := firstn n r in
          match skipn n r with
          | [] => Some name
          | ["v"%char] => Some (name ++ chars "()")
          | ps =>
              match types (S (length ps)) ps with
              | Some ts =>
                  if existsb (fun t => text_eqb t (chars "void")) ts
                  then None
                  else Some (name ++ chars "(" ++ commas ts ++ chars ")")
              | None => None
              end
          end
      end
  | _ => None
  end.

End Itanium.

(** A line-resolution utility that knows one address of one binary and
    answers the unknown-location marker for everything else. *)
Definition addr2line_demo (cmd : text) : option text :=
  if text_eqb cmd (chars "addr2line -s -e ./prog 0x4005a0")
  then Some (chars "prog.cc:7" ++ [LF])
  else Some (chars "??:0" ++ [LF]).

(** ** [demangle_cpp_name], [run_addr2line], [print_backtrace] *)

Inductive exc : Type := demangle_failed_exc_t.

Definition max_frames : nat := 100.

Section Backtrace.

(** [abi::__cxa_demangle(name, NULL, 0, &res)]: the characters of the
    buffer it allocates when [res == 0], nothing otherwise. *)
Variable cxa_demangle : text -> option text.

(** [popen(cmd, "r")]: nothing when the stream cannot be opened, otherwise
    everything the command writes to its standard output. *)
Variable popen_read : text -> option text.

Local Open Scope io_scope.

Definition demangle_cpp_name (mangled_name : text) : text + exc :=
  match cxa_demangle mangled_name with
  | Some name_as_c_str => inl name_as_c_str
  | None => inr demangle_failed_exc_t
  end.

(** [popen] followed by reading the stream; the command is recorded. *)
Definition popen (cmd : text) : IO (option text) :=
  fun w => Ok (popen_read cmd, mkWorld (out w) (spawned w ++ [cmd])).

(** [snprintf(cmd_buf, size, "addr2line -s -e %s %s", ...)] keeps at most
    [size - 1] characters. *)
Definition snprintf_cmd (size : nat) (executable address : text) : text :=
  firstn (size - 1)
    (chars "addr2line -s -e " ++ executable ++ chars " " ++ address).

(** [fread(line, 1, n, stream)] until [n] characters or end of stream. *)
Definition fread (line : buffer) (n : nat) (stream : text) : res (Z * buffer) :=
  let data := firstn n stream in
  if (length data <=? length line)%nat
  then Ok (Z.of_nat (length data), data ++ skipn (length data) line)
  else Oob (Z.of_nat (length line)).

(** Returns the [bool] result and the [line] buffer as it leaves it. *)
Definition run_addr2line (executable address : text) (line : buffer)
    (line_size : Z) : IO (bool * buffer) :=
  let cmd_buf := snprintf_cmd 255 executable address in
  fline <- popen cmd_buf ;;
  match fline with
  | None => io_ret (false, line)
  | Some stream =>
      r <- lift (fread line (Z.to_nat (line_size - 1)) stream) ;;
      let '(count, line) := r in
      if count =? 0 then io_ret (false, line) else
      c <- lift (load line (count - 1)) ;;
      line <- lift (if Ascii.eqb c LF then store line (count - 1) NUL
                    else store line count NUL) ;;
      s <- lift (c_str line 0) ;;
      if text_eqb s (chars "??:0") then io_ret (false, line)
      else io_ret (true, line)
  end.

(** A ["%s"] argument: a NULL pointer has no string. *)
Definition arg_s (b : buffer) (p : option ptr) : IO text :=
  match p with
  | Some p => lift (c_str b p)
  | None => lift Null
  end.

(** The body of the loop for frame [i].  [executable] and [address] are
    read through ["%s"] on both branches of the location test (by
    [snprintf] in [run_addr2line], by [fprintf] otherwise), so they are read
    once before it. *)
Definition print_frame (use_addr2line : bool) (i : nat) (symbol_i : text)
    : IO unit :=
  line <- lift (scoped_copy symbol_i) ;;
  fputs (dec (i + 1) ++ chars ": ") ;;
  r <- lift (parse_backtrace_line line) ;;
  match r with
  | None =>
      s <- lift (c_str (c_object symbol_i) 0) ;;
      fputs (s ++ [LF])
  | Some (f, mem) =>
      match function f with
      | Some func =>
          name <- lift (c_str mem func) ;;
          match demangle_cpp_name name with
          | inl demangled => fputs demangled
          | inr demangle_failed_exc_t =>
              off <- arg_s mem (offset f) ;;
              fputs (name ++ chars "+" ++ off)
          end
      | None => fputs (chars "?")
      end ;;
      fputs (chars " at ") ;;
      let line := repeat NUL 255 in
      executable <- lift (c_str mem (filename f)) ;;
      addr <- lift (c_str mem (address f)) ;;
      r <- (if use_addr2line
            then run_addr2line executable addr line 255
            else io_ret (false, line)) ;;
      let '(found, line) := r in
      (if found
       then s <- lift (c_str line 0) ;; fputs s
       else fputs (addr ++ chars " (" ++ executable ++ chars ")")) ;;
      fputs [LF]
  end.

Fixpoint print_frames (use_addr2line : bool) (i : nat) (symbols : list text)
    : IO unit :=
  match symbols with
  | [] => io_ret tt
  | symbol_i :: rest =>
      print_frame use_addr2line i symbol_i ;;
      print_frames use_addr2line (S i) rest
  end.

(** [symbols] is what [backtrace_symbols(stack_frames, size)] returned, one
    descriptor per captured frame, [size] being at most [max_frames]; [None]
    is its NULL result. *)
Definition print_backtrace (symbols : option (list text))
    (use_addr2line : bool) : IO unit :=
  match symbols with
  | Some symbols => print_frames use_addr2line 0 symbols
  | None => fputs (chars "(too little memory for backtrace)" ++ [LF])
  end.

End Backtrace.

Definition start : world := mkWorld [] [].

(** * The other utilities of [src/utils.cc] *)

(** ** Machine integers *)

(** A value reduced to [uint32_t], and the [int32_t] a [uint32_t] converts
    to (two's complement). *)
Definition to_uint32 (z : Z) : Z := z mod 2 ^ 32.

Definition to_int32 (z : Z) : Z :=
  let u := z mod 2 ^ 32 in
  if u <? 2 ^ 31 then u else u - 2 ^ 32.

Definition INT_MAX : Z := 2 ^ 31 - 1.

Definition INT_MIN : Z := - 2 ^ 31.

(** ** [repli_max] *)

Record repli_timestamp_t : Type := mk_repli_timestamp { time : Z }.

Definition repli_invalid : repli_timestamp_t :=
  mk_repli_timestamp (to_uint32 (-1)).

Definition repli_distant_past : repli_timestamp_t := mk_repli_timestamp 0.

Definition repli_max (x y : repli_timestamp_t) : repli_timestamp_t :=
  if to_int32 (to_uint32 (time x - time y)) <? 0 then y else x.

(** ** [gcd] *)

(** The loop of [gcd] on [int] values.  [x % y] truncates towards zero;
    [INT_MIN % -1] is undefined, its quotient not being an [int] (the
    division instruction of x86 traps on it): [None] is a run that
    executes it.  The two [rassert]s are compiled out of release builds and
    are not part of the loop. *)
Equations? gcd (x y : Z) : option Z by wf (Z.abs_nat y) lt :=
  gcd x y with Z.eq_dec y 0 => {
    | left _ => Some x
    | right _ with (x =? INT_MIN) && (y =? -1) => {
      | true => None
      | false => gcd y (Z.rem x y)
    }
  }.
Proof.
  assert (H := Z.rem_bound_abs x y n). lia.
Qed.

(** ** [sized_strcmp] and the comparison of blobs *)

(** The value of a character as [unsigned char]. *)
Definition uchar (c : ascii) : Z := Z.of_nat (nat_of_ascii c).

(** The first difference of two stretches, as [memcmp] reports it. The C
    standard fixes the sign of the result only; this is the difference of
    the two characters. *)
Fixpoint first_difference (s t : list ascii) : Z :=
  match s, t with
  | x :: s', y :: t' =>
      if Ascii.eqb x y then first_difference s' t' else uchar x - uchar y
  | _, _ => 0
  end.

(** The [n] characters of an object from offset [p] on; all of them have
    to lie inside it.  A negative [int] handed over as [size_t] is a count
    no object holds. *)
Definition span (b : buffer) (p : ptr) (n : Z) : res (list ascii) :=
  if (0 <=? n) && (0 <=? p) && (p + n <=? Z.of_nat (length b))
  then Ok (firstn (Z.to_nat n) (skipn (Z.to_nat p) b))
  else Oob (if p <? 0 then p else Z.of_nat (length b)).

Definition memcmp (b1 : buffer) (p1 : ptr) (b2 : buffer) (p2 : ptr) (n : Z)
    : res Z :=
  s <- span b1 p1 n ;;
  t <- span b2 p2 n ;;
  Ok (first_difference s t).

Definition sized_strcmp (str1 : buffer) (len1 : Z) (str2 : buffer) (len2 : Z)
    : res Z :=
  let min_len := Z.min len1 len2 in
  r <- memcmp str1 0 str2 0 min_len ;;
  if r =? 0 then Ok (len1 - len2) else Ok r.

(** A [binary_blob_t] as its bytes: [size()] is their number and [data()]
    points at the first. *)
Definition binary_blob_t := list ascii.

Definition blob_eq (left right : binary_blob_t) : res bool :=
  if Z.of_nat (length left) =? Z.of_nat (length right)
  then r <- memcmp left 0 right 0 (Z.of_nat (length left)) ;; Ok (r =? 0)
  else Ok false.

Definition blob_neq (left right : binary_blob_t) : res bool :=
  b <- blob_eq left right ;; Ok (negb b).

(** ** Precise time *)

Record timespec : Type := mk_timespec { tv_sec : Z; tv_nsec : Z }.

(** [time_sync_data]. *)
Record time_sync : Type := mk_time_sync {
  hi_res_clock : timespec;
  low_res_clock : Z
}.

(** What [get_absolute_time] fills in: [secs] is the [time_t] that
    [gmtime_r] breaks down into the calendar fields, [ns] the field of that
    name. *)
Record precise_time_t : Type := mk_precise_time { secs : Z; ns : Z }.

Section PreciseTime.

(** The constant of that name in [utils.hpp]. *)
Variable BILLION : Z.

Definition set_precise_time_offset (hi_res_clock : timespec)
    (low_res_clock : Z) : time_sync :=
  mk_time_sync hi_res_clock low_res_clock.

(** [err] and [now] are what [clock_gettime(CLOCK_MONOTONIC, &now)] gives,
    [now_low_res] what [time(NULL)] gives; the assertion on [err] is compiled
    out of release builds. *)
Definition get_uptime (d : time_sync) (err : Z) (now : timespec)
    (now_low_res : Z) : timespec :=
  if err =? 0 then
    let sec := tv_sec now - tv_sec (hi_res_clock d) in
    let nsec := tv_nsec now - tv_nsec (hi_res_clock d) in
    if nsec <? 0 then mk_timespec (sec - 1) (nsec + BILLION)
    else mk_timespec sec nsec
  else mk_timespec (now_low_res - low_res_clock d) 0.

(** [nsec] is a [uint32_t]; [1e9] is the double that is exactly
    1000000000. *)
Definition get_absolute_time (d : time_sync) (relative_time : timespec)
    : precise_time_t :=
  let sec := low_res_clock d + tv_sec relative_time in
  let nsec := to_uint32 (tv_nsec (hi_res_clock d) + tv_nsec relative_time) in
  if nsec >? 1000000000
  then mk_precise_time (sec + 1) (to_uint32 (nsec - BILLION))
  else mk_precise_time sec nsec.

Definition get_time_now (d : time_sync) (err : Z) (now : timespec)
    (now_low_res : Z) : precise_time_t :=
  get_absolute_time d (get_uptime d err now now_low_res).

End PreciseTime.

(** ** Strict number parsing *)

(** What [strtol], [strtoul] or [strtoull] hand back: the value, how many
    characters of the string [*end] has moved past, and the value stored in
    [errno], if any. *)
Record conversion : Type := mk_conversion {
  value : Z;
  consumed : Z;
  stored_errno : option Z
}.

Section Strict.

(** [<ctype.h>] in the current locale. *)
Variable isspace : ascii -> bool.

(** [<errno.h>] and [<limits.h>]. *)
Variables ERANGE LONG_MAX LONG_MIN ULONG_MAX ULLONG_MAX : Z.

(** The library functions, on the characters of the string and the base. *)
Variables strtol strtoul strtoull : text -> Z -> conversion.

(** The loop that moves [string] past the characters [isspace] accepts. *)
Fixpoint skip_space (s : list ascii) (string : ptr) : res ptr :=
  match s with
  | [] => Oob string
  | x :: s' => if isspace x then skip_space s' (string + 1) else Ok string
  end.

Definition begins_with_minus (b : buffer) (string : ptr) : res bool :=
  string <- (if in_bounds b string
             then skip_space (skipn (Z.to_nat string) b) string
             else Oob string) ;;
  c <- load b string ;;
  Ok (Ascii.eqb c "-"%char).

Definition errno_after (c : conversion) (errno : Z) : Z :=
  match stored_errno c with
  | Some e => e
  | None => errno
  end.

(** Each returns the result, [*end] and [errno] as it leaves it. *)
Definition strtol_strict (b : buffer) (string : ptr) (base : Z) (errno : Z)
    : res (Z * ptr * Z) :=
  s <- c_str b string ;;
  let c := strtol s base in
  let errno := errno_after c errno in
  if ((value c =? LONG_MAX) || (value c =? LONG_MIN)) && (errno =? ERANGE)
  then Ok (0, string, errno)
  else Ok (value c, string + consumed c, errno).

Definition strtoul_strict (b : buffer) (string : ptr) (base : Z) (errno : Z)
    : res (Z * ptr * Z) :=
  minus <- begins_with_minus b string ;;
  if minus then Ok (0, string, errno) else
  s <- c_str b string ;;
  let c := strtoul s base in
  let errno := errno_after c errno in
  if (value c =? ULONG_MAX) && (errno =? ERANGE)
  then Ok (0, string, errno)
  else Ok (value c, string + consumed c, errno).

Definition strtoull_strict (b : buffer) (string : ptr) (base : Z) (errno : Z)
    : res (Z * ptr * Z) :=
  minus <- begins_with_minus b string ;;
  if minus then Ok (0, string, errno) else
  s <- c_str b string ;;
  let c := strtoull s base in
  let errno := errno_after c errno in
  if (value c =? ULLONG_MAX) && (errno =? ERANGE)
  then Ok (0, string, errno)
  else Ok (value c, string + consumed c, errno).

End Strict.

(** ** [print_hd] *)

Definition to_uint64 (z : Z) : Z := z mod 2 ^ 64.

Definition to_int64 (z : Z) : Z :=
  let u := z mod 2 ^ 64 in
  if u <? 2 ^ 63 then u else u - 2 ^ 64.

(** The value of a character as [char], which is signed where the code is
    built. *)
Definition schar (c : ascii) : Z :=
  if uchar c <? 128 then uchar c else uchar c - 256.

Definition hex_digit (d : Z) : ascii :=
  nth (Z.to_nat d) (chars "0123456789abcdef") "0"%char.

(** The [digits] low hexadecimal digits of [z]: ["%.8x"] of an
    [unsigned int] and ["%.2hhx"] are 8 and 2 of them. *)
Fixpoint hex (digits : nat) (z : Z) : text :=
  match digits with
  | O => []
  | S n => hex n (z / 16) ++ [hex_digit (z mod 16)]
  end.

(** [bd_sample], [zero_sample] and [ff_sample]. *)
Definition sample (byte : nat) : buffer := repeat (ascii_of_nat byte) 16.

(** A loop body run for each [i] of a list, its output in order. *)
Fixpoint each (range : list Z) (body : Z -> res text) : res text :=
  match range with
  | [] => Ok []
  | i :: range' =>
      t <- body i ;;
      rest <- each range' body ;;
      Ok (t ++ rest)
  end.

Definition sixteen : list Z := map Z.of_nat (seq 0 16).

Section Hexdump.

(** [<ctype.h>] in the current locale, on the [int] a [char] promotes
    to. *)
Variable isprint : Z -> bool.

Definition skip_row (mem : buffer) (buf : ptr) : res bool :=
  r <- memcmp mem buf (sample 189) 0 16 ;;
  if r =? 0 then Ok true else
  r <- memcmp mem buf (sample 0) 0 16 ;;
  if r =? 0 then Ok true else
  r <- memcmp mem buf (sample 255) 0 16 ;;
  Ok (r =? 0).

Definition hex_cell (mem : buffer) (buf : ptr) (length : Z) (i : Z)
    : res text :=
  if i <? to_int32 length
  then c <- load mem (buf + i) ;; Ok (hex 2 (uchar c) ++ chars " ")
  else Ok (chars "   ").

Definition char_cell (mem : buffer) (buf : ptr) (length : Z) (i : Z)
    : res text :=
  if i <? to_int32 length
  then c <- load mem (buf + i) ;;
       Ok [if isprint (schar c) then c else "."%char]
  else Ok (chars " ").

(** What one turn of the loop writes to [stderr]. *)
Definition row (mem : buffer) (buf : ptr) (offset : Z) (length : Z)
    (skip skipped_last : bool) : res text :=
  if skip then Ok (if skipped_last then [] else chars "*" ++ [LF])
  else
    cells <- each sixteen (hex_cell mem buf length) ;;
    glyphs <- each sixteen (char_cell mem buf length) ;;
    Ok (hex 8 (to_uint32 offset) ++ chars "  " ++ cells ++ chars "| " ++
        glyphs ++ [LF]).

(** The [while] loop; [len] is the variable [length] and [stderr] is what
    has been written so far. *)
Equations? print_hd_loop (mem : buffer) (buf : ptr) (offset : Z) (len : Z)
    (skipped_last : bool) (stderr : text) : res text
    by wf (Z.to_nat len) lt :=
  print_hd_loop mem buf offset len skipped_last stderr
    with Z_gt_dec len 0 => {
    | right _ => Ok stderr
    | left _ with skip_row mem buf => {
      | Oob p => Oob p
      | Null => Null
      | Ok skip with row mem buf offset len skip skipped_last => {
        | Oob p => Oob p
        | Null => Null
        | Ok line =>
            print_hd_loop mem (buf + 16) (to_uint64 (offset + 16))
              (len - 16) skip (stderr ++ line)
        }
      }
    }.
Proof.
  lia.
Qed.

Definition print_hd (mem : buffer) (vbuf : ptr) (offset : Z) (ulength : Z)
    : res text :=
  print_hd_loop mem vbuf (to_uint64 offset) (to_int64 ulength) false [].

End Hexdump.

(** ** [rand_string] *)

Section RandString.

(** What a computation in [int] yields when its exact result does not fit
    (the wrapped value, on the compilers the code is built with). *)
Variable overflow : Z -> Z.

Definition int_of (z : Z) : Z :=
  if (- 2 ^ 31 <=? z) && (z <=? INT_MAX) then z else overflow z.

(** The three updates of [seed] in the loop; [>>] on a negative [int]
    keeps the sign. *)
Definition rand_step (seed : Z) : Z :=
  let seed := Z.lxor seed (Z.shiftr seed 17) in
  let seed := int_of (seed + int_of (Z.shiftl seed 11)) in
  Z.lxor seed (Z.shiftr seed 29).

Fixpoint rand_string_loop (turns : nat) (seed : Z) : text :=
  match turns with
  | O => []
  | S turns' =>
      ascii_of_nat (Z.to_nat (Z.rem seed 26 + 65)) ::
      rand_string_loop turns' (rand_step seed)
  end.

(** [rand] is what [rand()] returns. *)
Definition rand_string (rand : Z) (len : Z) : text :=
  rand_string_loop (Z.to_nat len) rand.

End RandString.

(** ** Stand-ins for the C library in concrete runs *)

(** The C locale and LP64 Linux. *)
Module Libc.

Definition isspace (c : ascii) : bool :=
  let n := nat_of_ascii c in
  ((9 <=? n) && (n <=? 13) || (n =? 32))%nat.

Definition isprint (c : Z) : bool := (32 <=? c) && (c <=? 126).

Definition ERANGE : Z := 34.
Definition LONG_MAX : Z := 2 ^ 63 - 1.
Definition LONG_MIN : Z := - 2 ^ 63.
Definition ULONG_MAX : Z := 2 ^ 64 - 1.
Definition ULLONG_MAX : Z := 2 ^ 64 - 1.

(** The decimal digits at the start of a text: their value and number. *)
Fixpoint digits (s : text) (acc : Z) (n : Z) : Z * Z :=
  match s with
  | c :: s' =>
      let d := Z.of_nat (nat_of_ascii c) - 48 in
      if (0 <=? d) && (d <=? 9) then digits s' (10 * acc + d) (n + 1)
      else (acc, n)
  | [] => (acc, n)
  end.

Fixpoint spaces (s : text) : Z * text :=
  match s with
  | c :: s' =>
      if isspace c then let '(n, r) := spaces s' in (n + 1, r) else (0, s)
  | [] => (0, s)
  end.

(** [strtol] for base 10: white space, an optional sign, digits; out of
    range it answers the nearest bound and stores [ERANGE]. *)
Definition strtol (s : text) (base : Z) : conversion :=
  let '(ws, r) := spaces s in
  let '(sign, skip, r) :=
    match r with
    | "-"%char :: r' => (-1, 1, r')
    | "+"%char :: r' => (1, 1, r')
    | _ => (1, 0, r)
    end in
  let '(v, n) := digits r 0 0 in
  if n =? 0 then mk_conversion 0 0 None
  else if LONG_MAX <? sign * v then mk_conversion LONG_MAX (ws + skip + n) (Some ERANGE)
  else if sign * v <? LONG_MIN then mk_conversion LONG_MIN (ws + skip + n) (Some ERANGE)
  else mk_conversion (sign * v) (ws + skip + n) None.

(** [strtoul] for base 10: as [strtol], a negated value wrapping around. *)
Definition strtoul (s : text) (base : Z) : conversion :=
  let '(ws, r) := spaces s in
  let '(sign, skip, r) :=
    match r with
    | "-"%char :: r' => (-1, 1, r')
    | "+"%char :: r' => (1, 1, r')
    | _ => (1, 0, r)
    end in
  let '(v, n) := digits r 0 0 in
  if n =? 0 then mk_conversion 0 0 None
  else if ULONG_MAX <? v then mk_conversion ULONG_MAX (ws + skip + n) (Some ERANGE)
  else mk_conversion ((sign * v) mod 2 ^ 64) (ws + skip + n) None.

End Libc.

(** ** Vocabulary of the properties *)

Local Open Scope char_scope.
Local Open Scope Z_scope.

(** A stretch of text that a scan for [c] walks through. *)
Definition passes (c : ascii) (s : text) : Prop :=
  Forall (fun x => x <> c /\ x <> NUL) s.

(** The two line shapes of the comment in [parse_backtrace_line]. *)
Definition shape_a (m f o a : text) : text :=
  m ++ "(" :: f ++ "+" :: o ++ ")" :: " " :: "[" :: a ++ ["]"].

Definition shape_b (m a : text) : text :=
  m ++ " " :: "[" :: a ++ ["]"].

(** A third shape: the first closing parenthesis of the line comes before
    its first opening parenthesis, [module) [address](function+offset]. *)
Definition shape_closed_first (m a f o : text) : text :=
  m ++ ")" :: " " :: "[" :: a ++ "]" :: "(" :: f ++ "+" :: o.

(** The order of byte strings: by the first differing byte, as an unsigned
    number; a proper prefix comes first. *)
Fixpoint lex_compare (s t : list ascii) : comparison :=
  match s, t with
  | [], [] => Eq
  | [], _ :: _ => Lt
  | _ :: _, [] => Gt
  | x :: s', y :: t' =>
      match uchar x ?= uchar y with
      | Eq => lex_compare s' t'
      | c => c
      end
  end.

(** A text without the leading characters that satisfy a test. *)
Fixpoint drop_while (test : ascii -> bool) (s : text) : text :=
  match s with
  | [] => []
  | x :: s' => if test x then drop_while test s' else s
  end.

(** The line that stands for skipped rows, and the shape of a dump: every
    line is that line or is 77 characters long with the line terminator
    last, and no two lines standing for skipped rows follow each other. *)
Definition star_line : text := chars "*" ++ [LF].

Definition dump_line (l : text) : Prop :=
  l = star_line \/ (length l = 77%nat /\ last l NUL = LF).

Fixpoint stars_apart (after_star : bool) (lines : list text) : Prop :=
  match lines with
  | [] => True
  | l :: rest =>
      ~ (after_star = true /\ l = star_line) /\
      stars_apart (text_eqb l star_line) rest
  end.

(** The sixteen bytes of the row at [buf]. *)
Definition row_bytes (mem : buffer) (buf : Z) : list ascii :=
  firstn 16 (skipn (Z.to_nat buf) mem).

(** A row that [print_hd] takes for filler. *)
Definition filler (r : list ascii) : Prop :=
  r = sample 189 \/ r = sample 0 \/ r = sample 255.

(** The number of 16-byte rows that cover [len] bytes. *)
Definition rows_of (len : Z) : Z := (len + 15) / 16.

(** The fields of a parsed symbol put together again, in the shape they
    are taken from. *)
Definition reassemble (s : symbol) : text :=
  match sym_function s, sym_offset s with
  | Some f, Some o => shape_a (sym_module s) f o (sym_address s)
  | _, _ => shape_b (sym_module s) (sym_address s)
  end.

(** A text without its trailing line terminator, if it has one. *)
Fixpoint chomp (s : text) : text :=
  match s with
  | [] => []
  | [c] => if Ascii.eqb c LF then [] else [c]
  | c :: s' => c :: chomp s'
  end.

(** The world after the command has been handed to [popen]. *)
Definition after_popen (w : world) (executable address : text) : world :=
  mkWorld (out w) (spawned w ++ [snprintf_cmd 255 executable address]).

(** The display name of a parsed frame: the question mark without a
    function, the demangled name, or the function and its offset when the
    demangler fails. *)
Definition frame_name (cxa_demangle : text -> option text) (s : symbol)
    (name : text) : Prop :=
  match sym_function s with
  | None => name = chars "?"
  | Some fn =>
      match cxa_demangle fn with
      | Some demangled => name = demangled
      | None =>
          exists off, sym_offset s = Some off /\ name = fn ++ chars "+" ++ off
      end
  end.

(** The line of frame [i] of a report: its number, then the descriptor as
    it is when the parser rejects it, and a name and a location when the
    parser accepts it; without the line-resolution utility the location is
    the address and the module. *)
Definition frame_line (cxa_demangle : text -> option text)
    (use_addr2line : bool) (i : nat) (symbol_i l : text) : Prop :=
  match parse symbol_i with
  | Ok None => l = dec (i + 1) ++ chars ": " ++ symbol_i ++ [LF]
  | Ok (Some s) =>
      exists name loc,
        l = dec (i + 1) ++ chars ": " ++ name ++ chars " at " ++ loc ++ [LF] /\
        frame_name cxa_demangle s name /\
        (use_addr2line = false ->
         loc = sym_address s ++ chars " (" ++ sym_module s ++ chars ")")
  | _ => False
  end.

(** The lines of a report whose first frame has index [i]: one for each
    descriptor, in their order. *)
Fixpoint report_lines (cxa_demangle : text -> option text)
    (use_addr2line : bool) (i : nat) (symbols lines : list text) : Prop :=
  match symbols, lines with
  | [], [] => True
  | symbol_i :: symbols', l :: lines' =>
      frame_line cxa_demangle use_addr2line i symbol_i l /\
      report_lines cxa_demangle use_addr2line (S i) symbols' lines'
  | _, _ => False
  end.

(** The commands a frame hands to [popen]: one for a parsed frame when the
    line-resolution utility is in use, none otherwise. *)
Definition frame_commands (use_addr2line : bool) (symbol_i : text)
    : list text :=
  match parse symbol_i with
  | Ok (Some s) =>
      if use_addr2line
      then [snprintf_cmd 255 (sym_module s) (sym_address s)]
      else []
  | _ => []
  end.

(** A buffer whose last character is the terminator. *)
Definition terminated (b : buffer) : Prop := exists s, b = s ++ [NUL].

(** An action that hands nothing to [popen]. *)
Definition quiet {A} (m : IO A) : Prop :=
  forall w a w', m w = Ok (a, w') -> spawned w' = spawned w.

(** * Properties *)

(** ** Proof automation *)

(** Buffers equal up to bracketing of [++]. *)
Ltac layout :=
  unfold c_object;
  repeat (progress (rewrite <- ?app_assoc; cbn [app]));
  reflexivity.

(** A pointer equal to the length of the text before it. *)
Ltac position :=
  repeat (progress (rewrite ?length_app; cbn [length])); lia.

(** Closed facts about concrete lines. *)
Ltac concrete := vm_compute; first [ reflexivity | intuition discriminate ].

(** ** Characters and texts *)

Lemma ascii_eqb_refl (c : ascii) : Ascii.eqb c c = true.
Proof. apply Ascii.eqb_eq. reflexivity. Qed.

Lemma ascii_eqb_false (c d : ascii) : c <> d -> Ascii.eqb c d = false.
Proof. intro H. apply Ascii.eqb_neq. exact H. Qed.

Lemma text_eqb_eq (s t : text) : text_eqb s t = true <-> s = t.
Proof.
  revert t. induction s as [|x s IH]; intros [|y t]; simpl;
    try (split; [discriminate | discriminate]); try tauto.
  rewrite andb_true_iff, Ascii.eqb_eq, IH.
  split; [intros [-> ->]; reflexivity | intros H; inversion H; auto].
Qed.

Lemma text_eqb_neq (s t : text) : s <> t -> text_eqb s t = false.
Proof.
  intro H. destruct (text_eqb s t) eqn:E; [|reflexivity].
  apply text_eqb_eq in E. contradiction.
Qed.

Lemma is_cstring_app (s t : text) :
  is_cstring (s ++ t) <-> is_cstring s /\ is_cstring t.
Proof.
  unfold is_cstring. rewrite in_app_iff. tauto.
Qed.

Lemma is_cstring_cons (c : ascii) (s : text) :
  is_cstring (c :: s) <-> c <> NUL /\ is_cstring s.
Proof.
  unfold is_cstring. simpl. split.
  - intro H. split; intro; apply H; auto.
  - intros [H1 H2] [E | E]; [exact (H1 E) | exact (H2 E)].
Qed.

(** ** Buffers laid out as [pre ++ x :: post] *)

Lemma in_bounds_mid (pre post : buffer) (x : ascii) :
  in_bounds (pre ++ x :: post) (Z.of_nat (length pre)) = true.
Proof.
  unfold in_bounds. rewrite length_app. simpl.
  apply andb_true_iff. split; [apply Z.leb_le | apply Z.ltb_lt]; lia.
Qed.

Lemma skipn_mid (pre rest : buffer) :
  skipn (Z.to_nat (Z.of_nat (length pre))) (pre ++ rest) = rest.
Proof.
  rewrite Nat2Z.id. rewrite skipn_app, skipn_all, Nat.sub_diag. reflexivity.
Qed.

Lemma load_mid (pre post : buffer) (x : ascii) :
  load (pre ++ x :: post) (Z.of_nat (length pre)) = Ok x.
Proof.
  unfold load. rewrite in_bounds_mid, Nat2Z.id.
  rewrite app_nth2, Nat.sub_diag by lia. reflexivity.
Qed.

Lemma poke_mid (pre post : buffer) (x c : ascii) :
  poke (pre ++ x :: post) (length pre) c = pre ++ c :: post.
Proof.
  induction pre as [|y pre IH]; simpl; [reflexivity | now rewrite IH].
Qed.

Lemma store_mid (pre post : buffer) (x c : ascii) :
  store (pre ++ x :: post) (Z.of_nat (length pre)) c = Ok (pre ++ c :: post).
Proof.
  unfold store. rewrite in_bounds_mid, Nat2Z.id, poke_mid. reflexivity.
Qed.

Lemma passes_intro (c : ascii) (s : text) :
  ~ In c s -> is_cstring s -> passes c s.
Proof.
  intros Hc Hn. apply Forall_forall. intros x Hx.
  split; intros ->; [apply Hc | apply Hn]; exact Hx.
Qed.

Lemma scan_found (s post : text) (c : ascii) (p : ptr) :
  passes c s ->
  scan (s ++ c :: post) p c = Ok (Some (p + Z.of_nat (length s))).
Proof.
  intro H. revert p.
  induction H as [|x s [Hc Hn] _ IH]; intro p; cbn [scan app length].
  - rewrite ascii_eqb_refl. f_equal. f_equal. lia.
  - rewrite (ascii_eqb_false _ _ Hc), (ascii_eqb_false _ _ Hn), IH.
    f_equal. f_equal. lia.
Qed.

Lemma scan_missing (s post : text) (c : ascii) (p : ptr) :
  passes c s -> c <> NUL ->
  scan (s ++ NUL :: post) p c = Ok None.
Proof.
  intros H Hc. revert p.
  induction H as [|x s [Hx Hn] _ IH]; intro p; cbn [scan app].
  - rewrite ascii_eqb_refl.
    rewrite ascii_eqb_false by (intro E; apply Hc; symmetry; exact E).
    reflexivity.
  - rewrite (ascii_eqb_false _ _ Hx), (ascii_eqb_false _ _ Hn). apply IH.
Qed.

Lemma strchr_found (pre s post : text) (c : ascii) :
  passes c s ->
  strchr (pre ++ s ++ c :: post) (Z.of_nat (length pre)) c =
  Ok (Some (Z.of_nat (length pre) + Z.of_nat (length s))).
Proof.
  intro H. unfold strchr.
  destruct s as [|x s].
  - simpl app. rewrite in_bounds_mid, skipn_mid. apply (scan_found [] post c _ H).
  - simpl app. rewrite in_bounds_mid, skipn_mid.
    apply (scan_found (x :: s) post c _ H).
Qed.

Lemma strchr_missing (pre s post : text) (c : ascii) :
  passes c s -> c <> NUL ->
  strchr (pre ++ s ++ NUL :: post) (Z.of_nat (length pre)) c = Ok None.
Proof.
  intros H Hc. unfold strchr.
  destruct s as [|x s]; simpl app; rewrite in_bounds_mid, skipn_mid.
  - apply (scan_missing [] post c _ H Hc).
  - apply (scan_missing (x :: s) post c _ H Hc).
Qed.

Lemma until_nul_text (s post : text) (p : ptr) :
  is_cstring s -> until_nul (s ++ NUL :: post) p = Ok s.
Proof.
  revert p. induction s as [|x s IH]; intros p H; cbn [until_nul app].
  - rewrite ascii_eqb_refl. reflexivity.
  - apply is_cstring_cons in H. destruct H as [Hx Hs].
    rewrite (ascii_eqb_false _ _ Hx), IH by exact Hs. reflexivity.
Qed.

Lemma c_str_mid (pre s post : text) :
  is_cstring s ->
  c_str (pre ++ s ++ NUL :: post) (Z.of_nat (length pre)) = Ok s.
Proof.
  intro H. unfold c_str.
  destruct s as [|x s]; simpl app; rewrite in_bounds_mid, skipn_mid.
  - reflexivity.
  - apply (until_nul_text (x :: s) post _ H).
Qed.

Lemma c_str_object (s : text) : is_cstring s -> c_str (c_object s) 0 = Ok s.
Proof.
  intro H. apply (c_str_mid [] s [] H).
Qed.

Lemma scoped_copy_cstring (s : text) :
  is_cstring s -> scoped_copy s = Ok (c_object s).
Proof.
  intro H. unfold scoped_copy, strlen. rewrite c_str_object by exact H.
  simpl. f_equal. apply firstn_all2. unfold c_object.
  rewrite length_app. simpl. lia.
Qed.

(** The same facts for a buffer and a pointer given up to equality, so
    that they apply whatever way the buffer is bracketed. *)

Lemma strchr_at (b : buffer) (p : ptr) (c : ascii) (pre s post : text) :
  b = pre ++ s ++ c :: post -> p = Z.of_nat (length pre) -> passes c s ->
  strchr b p c = Ok (Some (p + Z.of_nat (length s))).
Proof. intros -> -> H. apply strchr_found. exact H. Qed.

Lemma strchr_none_at (b : buffer) (p : ptr) (c : ascii) (pre s post : text) :
  b = pre ++ s ++ NUL :: post -> p = Z.of_nat (length pre) ->
  passes c s -> c <> NUL ->
  strchr b p c = Ok None.
Proof. intros -> -> H Hc. apply strchr_missing; assumption. Qed.

Lemma load_at (b : buffer) (p : ptr) (pre post : text) (x : ascii) :
  b = pre ++ x :: post -> p = Z.of_nat (length pre) -> load b p = Ok x.
Proof. intros -> ->. apply load_mid. Qed.

Lemma store_at (b : buffer) (p : ptr) (pre post : text) (x c : ascii) :
  b = pre ++ x :: post -> p = Z.of_nat (length pre) ->
  store b p c = Ok (pre ++ c :: post).
Proof. intros -> ->. apply store_mid. Qed.

Lemma c_str_at (b : buffer) (p : ptr) (pre s post : text) :
  b = pre ++ s ++ NUL :: post -> p = Z.of_nat (length pre) -> is_cstring s ->
  c_str b p = Ok s.
Proof. intros -> -> H. apply c_str_mid. exact H. Qed.

Lemma passes_not_in (c : ascii) (s : text) : passes c s -> ~ In c s.
Proof.
  intros H Hin. unfold passes in H. rewrite Forall_forall in H.
  destruct (H _ Hin) as [Hc _]. apply Hc. reflexivity.
Qed.

Lemma passes_app (c : ascii) (s t : text) :
  passes c s -> passes c t -> passes c (s ++ t).
Proof. intros Hs Ht. apply Forall_app. split; assumption. Qed.

Lemma passes_cons (c x : ascii) (s : text) :
  x <> c -> x <> NUL -> passes c s -> passes c (x :: s).
Proof. intros H1 H2 Hs. constructor; [split|]; assumption. Qed.

Lemma parse_backtrace_line_shape_a (m f o a : text) :
  is_cstring m -> is_cstring f -> is_cstring o -> is_cstring a ->
  ~ In "(" m -> ~ In ")" m -> ~ In "+" f -> ~ In ")" f ->
  ~ In ")" o -> ~ In "]" a ->
  parse_backtrace_line (c_object (shape_a m f o a)) =
  Ok (Some
        (mkFields 0
           (Some (Z.of_nat (length m) + 1))
           (Some (Z.of_nat (length m) + Z.of_nat (length f) + 2))
           (Z.of_nat (length m) + Z.of_nat (length f) + Z.of_nat (length o) + 5),
         m ++ NUL :: f ++ NUL :: o ++ NUL :: " " :: "[" :: a ++ [NUL; NUL])).
Proof.
  intros Hm Hf Ho Ha Hm1 Hm2 Hf1 Hf2 Ho1 Ha1.
  assert (Pm1 := passes_intro _ _ Hm1 Hm).
  assert (Pm2 := passes_intro _ _ Hm2 Hm).
  assert (Pf1 := passes_intro _ _ Hf1 Hf).
  assert (Pf2 := passes_intro _ _ Hf2 Hf).
  assert (Po1 := passes_intro _ _ Ho1 Ho).
  assert (Pa1 := passes_intro _ _ Ha1 Ha).
  unfold parse_backtrace_line, shape_a.
  (* paren1 *)
  rewrite (strchr_at _ _ _ [] m
             (f ++ "+" :: o ++ ")" :: " " :: "[" :: a ++ ["]"; NUL]));
    [ | layout | position | assumption ].
  cbn [res_bind].
  (* paren2 *)
  rewrite (strchr_at _ _ _ [] (m ++ "(" :: f ++ "+" :: o)
             (" " :: "[" :: a ++ ["]"; NUL]));
    [ | layout | position | ].
  2:{ apply passes_app; [assumption|].
      apply passes_cons; [discriminate..|].
      apply passes_app; [assumption|].
      apply passes_cons; [discriminate..|]. assumption. }
  cbn [res_bind].
  rewrite (store_at _ _ (m ++ "(" :: f ++ "+" :: o)
             (" " :: "[" :: a ++ ["]"; NUL]) ")");
    [ | layout | position ].
  cbn [res_bind].
  rewrite (store_at _ _ m
             (f ++ "+" :: o ++ NUL :: " " :: "[" :: a ++ ["]"; NUL]) "(");
    [ | layout | position ].
  cbn [res_bind].
  (* plus *)
  rewrite (strchr_at _ _ _ (m ++ [NUL]) f
             (o ++ NUL :: " " :: "[" :: a ++ ["]"; NUL]));
    [ | layout | position | assumption ].
  cbn [res_bind].
  rewrite (store_at _ _ (m ++ NUL :: f)
             (o ++ NUL :: " " :: "[" :: a ++ ["]"; NUL]) "+");
    [ | layout | position ].
  cbn [res_bind].
  (* the blank after the closing parenthesis *)
  rewrite (load_at _ _ (m ++ NUL :: f ++ NUL :: o ++ [NUL])
             ("[" :: a ++ ["]"; NUL]) " ");
    [ | layout | position ].
  cbn [res_bind negb]. rewrite ascii_eqb_refl. cbn [negb].
  (* the address *)
  unfold parse_address.
  rewrite (load_at _ _ (m ++ NUL :: f ++ NUL :: o ++ [NUL; " "])
             (a ++ ["]"; NUL]) "[");
    [ | layout | position ].
  cbn [res_bind negb]. rewrite ascii_eqb_refl. cbn [negb].
  rewrite (strchr_at _ _ _ (m ++ NUL :: f ++ NUL :: o ++ [NUL; " "; "["])
             a [NUL]);
    [ | layout | position | assumption ].
  cbn [res_bind].
  rewrite (load_at _ _
             (m ++ NUL :: f ++ NUL :: o ++ NUL :: " " :: "[" :: a ++ ["]"])
             [] NUL);
    [ | layout | position ].
  cbn [res_bind negb]. rewrite ascii_eqb_refl. cbn [negb].
  rewrite (store_at _ _ (m ++ NUL :: f ++ NUL :: o ++ NUL :: " " :: "[" :: a)
             [NUL] "]");
    [ | layout | position ].
  cbn [res_bind].
  f_equal. f_equal. f_equal; [ | layout ].
  f_equal; repeat first [ position | f_equal ].
Qed.

Lemma is_cstring_shape_a (m f o a : text) :
  is_cstring m -> is_cstring f -> is_cstring o -> is_cstring a ->
  is_cstring (shape_a m f o a).
Proof.
  intros Hm Hf Ho Ha. unfold shape_a.
  repeat first [ apply is_cstring_app; split | apply is_cstring_cons; split ];
    try assumption; try discriminate.
  intros [].
Qed.

Lemma read_fields_shape_a (m f o a : text) :
  is_cstring m -> is_cstring f -> is_cstring o -> is_cstring a ->
  read_fields
    (mkFields 0 (Some (Z.of_nat (length m) + 1))
       (Some (Z.of_nat (length m) + Z.of_nat (length f) + 2))
       (Z.of_nat (length m) + Z.of_nat (length f) + Z.of_nat (length o) + 5))
    (m ++ NUL :: f ++ NUL :: o ++ NUL :: " " :: "[" :: a ++ [NUL; NUL]) =
  Ok (mkSymbol m (Some f) (Some o) a).
Proof.
  intros Hm Hf Ho Ha. unfold read_fields, c_str_opt.
  cbn [filename function offset address].
  rewrite (c_str_at _ _ [] m
             (f ++ NUL :: o ++ NUL :: " " :: "[" :: a ++ [NUL; NUL]));
    [ | layout | position | assumption ].
  cbn [res_bind].
  rewrite (c_str_at _ _ (m ++ [NUL]) f
             (o ++ NUL :: " " :: "[" :: a ++ [NUL; NUL]));
    [ | layout | position | assumption ].
  cbn [res_bind].
  rewrite (c_str_at _ _ (m ++ NUL :: f ++ [NUL]) o
             (" " :: "[" :: a ++ [NUL; NUL]));
    [ | layout | position | assumption ].
  cbn [res_bind].
  rewrite (c_str_at _ _ (m ++ NUL :: f ++ NUL :: o ++ [NUL; " "; "["]) a [NUL]);
    [ | layout | position | assumption ].
  reflexivity.
Qed.

Lemma parse_shape_a (m f o a : text) :
  is_cstring m -> is_cstring f -> is_cstring o -> is_cstring a ->
  ~ In "(" m -> ~ In ")" m -> ~ In "+" f -> ~ In ")" f ->
  ~ In ")" o -> ~ In "]" a ->
  parse (shape_a m f o a) = Ok (Some (mkSymbol m (Some f) (Some o) a)).
Proof.
  intros Hm Hf Ho Ha Hm1 Hm2 Hf1 Hf2 Ho1 Ha1.
  unfold parse.
  rewrite scoped_copy_cstring by (apply is_cstring_shape_a; assumption).
  cbn [res_bind].
  rewrite parse_backtrace_line_shape_a by assumption.
  cbn [res_bind]. rewrite read_fields_shape_a by assumption. reflexivity.
Qed.

(** A line of the first shape whose module holds a closing parenthesis
    that no blank follows is rejected: the closing parenthesis is searched
    from the start of the line, so it is found in the module, and the
    character after it is not the blank that comes before the address. *)
Lemma parse_backtrace_line_closed_in_module (m1 m2 f o a : text) :
  is_cstring m1 -> is_cstring m2 -> is_cstring f ->
  ~ In "(" m1 -> ~ In ")" m1 -> ~ In "(" m2 -> ~ In "+" f ->
  (forall rest, m2 <> " " :: rest) ->
  parse_backtrace_line (c_object (shape_a (m1 ++ ")" :: m2) f o a)) = Ok None.
Proof.
  intros Hm1 Hm2 Hf Ho1 Hc1 Ho2 Hp Hblank.
  assert (P1 := passes_intro _ _ Ho1 Hm1).
  assert (P2 := passes_intro _ _ Hc1 Hm1).
  assert (P3 := passes_intro _ _ Ho2 Hm2).
  assert (P4 := passes_intro _ _ Hp Hf).
  unfold parse_backtrace_line, shape_a.
  (* paren1 *)
  rewrite (strchr_at _ _ _ [] (m1 ++ ")" :: m2)
             (f ++ "+" :: o ++ ")" :: " " :: "[" :: a ++ ["]"; NUL]));
    [ | layout | position | ].
  2:{ apply passes_app; [assumption|].
      apply passes_cons; [discriminate..|]. assumption. }
  cbn [res_bind].
  (* paren2, in the module *)
  rewrite (strchr_at _ _ _ [] m1
             (m2 ++ "(" :: f ++ "+" :: o ++
              ")" :: " " :: "[" :: a ++ ["]"; NUL]));
    [ | layout | position | assumption ].
  cbn [res_bind].
  rewrite (store_at _ _ m1
             (m2 ++ "(" :: f ++ "+" :: o ++
              ")" :: " " :: "[" :: a ++ ["]"; NUL]) ")");
    [ | layout | position ].
  cbn [res_bind].
  rewrite (store_at _ _ (m1 ++ NUL :: m2)
             (f ++ "+" :: o ++ ")" :: " " :: "[" :: a ++ ["]"; NUL]) "(");
    [ | layout | position ].
  cbn [res_bind].
  (* plus *)
  rewrite (strchr_at _ _ _ (m1 ++ NUL :: m2 ++ [NUL]) f
             (o ++ ")" :: " " :: "[" :: a ++ ["]"; NUL]));
    [ | layout | position | assumption ].
  cbn [res_bind].
  rewrite (store_at _ _ (m1 ++ NUL :: m2 ++ NUL :: f)
             (o ++ ")" :: " " :: "[" :: a ++ ["]"; NUL]) "+");
    [ | layout | position ].
  cbn [res_bind].
  (* the character after the closing parenthesis *)
  destruct m2 as [|c m2].
  - rewrite (load_at _ _ (m1 ++ [NUL])
               (f ++ NUL :: o ++ ")" :: " " :: "[" :: a ++ ["]"; NUL]) NUL);
      [ | layout | position ].
    reflexivity.
  - rewrite (load_at _ _ (m1 ++ [NUL])
               (m2 ++ NUL :: f ++ NUL :: o ++
                ")" :: " " :: "[" :: a ++ ["]"; NUL]) c);
      [ | layout | position ].
    cbn [res_bind].
    destruct (Ascii.eqb c " ") eqn:E; [|reflexivity].
    apply Ascii.eqb_eq in E. subst c. destruct (Hblank m2). reflexivity.
Qed.

Lemma parse_closed_in_module (m1 m2 f o a : text) :
  is_cstring m1 -> is_cstring m2 -> is_cstring f -> is_cstring o ->
  is_cstring a ->
  ~ In "(" m1 -> ~ In ")" m1 -> ~ In "(" m2 -> ~ In "+" f ->
  (forall rest, m2 <> " " :: rest) ->
  parse (shape_a (m1 ++ ")" :: m2) f o a) = Ok None.
Proof.
  intros Hm1 Hm2 Hf Ho Ha Ho1 Hc1 Ho2 Hp Hblank.
  unfold parse.
  rewrite scoped_copy_cstring.
  2:{ apply is_cstring_shape_a; try assumption.
      apply is_cstring_app. split; [assumption|].
      apply is_cstring_cons. split; [discriminate | assumption]. }
  cbn [res_bind].
  rewrite parse_backtrace_line_closed_in_module by assumption.
  reflexivity.
Qed.

(** ** Reading a scan backwards *)

Lemma scan_some (s : text) (p q : ptr) (c : ascii) :
  scan s p c = Ok (Some q) ->
  exists s1 post,
    s = s1 ++ c :: post /\ q = p + Z.of_nat (length s1) /\ passes c s1.
Proof.
  revert p. induction s as [|x s IH]; intros p H; cbn [scan] in H.
  - discriminate.
  - destruct (Ascii.eqb x c) eqn:Exc.
    + apply Ascii.eqb_eq in Exc. subst x. inversion H. subst q.
      exists [], s. repeat split; [cbn [length]; lia | constructor].
    + destruct (Ascii.eqb x NUL) eqn:Exn; [discriminate|].
      apply Ascii.eqb_neq in Exc, Exn.
      destruct (IH _ H) as (s1 & post & -> & -> & Hs1).
      exists (x :: s1), post. repeat split.
      * cbn [length]. lia.
      * apply passes_cons; assumption.
Qed.

Lemma scan_none (s : text) (p : ptr) (c : ascii) :
  scan s p c = Ok None ->
  exists s1 post, s = s1 ++ NUL :: post /\ passes c s1 /\ c <> NUL.
Proof.
  revert p. induction s as [|x s IH]; intros p H; cbn [scan] in H.
  - discriminate.
  - destruct (Ascii.eqb x c) eqn:Exc; [discriminate|].
    destruct (Ascii.eqb x NUL) eqn:Exn.
    + apply Ascii.eqb_eq in Exn. subst x. apply Ascii.eqb_neq in Exc.
      exists [], s. repeat split; [constructor | congruence].
    + apply Ascii.eqb_neq in Exc, Exn.
      destruct (IH _ H) as (s1 & post & -> & Hs1 & Hc).
      exists (x :: s1), post. repeat split; [|assumption].
      apply passes_cons; assumption.
Qed.

(** On a terminated stretch the scan always comes back with an answer. *)
Lemma scan_terminated (s : text) (p : ptr) (c : ascii) :
  exists r, scan (s ++ [NUL]) p c = Ok r.
Proof.
  revert p. induction s as [|x s IH]; intro p; cbn [scan app].
  - destruct (Ascii.eqb NUL c); [eexists; reflexivity|].
    rewrite ascii_eqb_refl. eexists; reflexivity.
  - destruct (Ascii.eqb x c); [eexists; reflexivity|].
    destruct (Ascii.eqb x NUL); [eexists; reflexivity|]. apply IH.
Qed.

(** Splitting a terminated buffer at a character that is not the
    terminator leaves a terminated remainder. *)
Lemma terminated_split (l pre post : text) (c : ascii) :
  l ++ [NUL] = pre ++ c :: post -> c <> NUL ->
  exists post', post = post' ++ [NUL] /\ l = pre ++ c :: post'.
Proof.
  intros H Hc. destruct post as [|y post] using rev_ind.
  - exfalso. change (pre ++ [c]) with (pre ++ [c]) in H.
    apply app_inj_tail in H. destruct H as [_ H]. congruence.
  - clear IHpost.
    change (pre ++ c :: post ++ [y]) with (pre ++ (c :: post) ++ [y]) in H.
    rewrite app_assoc in H. apply app_inj_tail in H. destruct H as [-> <-].
    exists post. split; reflexivity.
Qed.

(** A C string ends at its first terminator. *)
Lemma cstring_first_nul (l pre post : text) :
  is_cstring l -> l ++ [NUL] = pre ++ NUL :: post -> l = pre /\ post = [].
Proof.
  intros Hl H. destruct post as [|y post] using rev_ind.
  - apply app_inj_tail in H. tauto.
  - exfalso. clear IHpost.
    change (pre ++ NUL :: post ++ [y]) with (pre ++ (NUL :: post) ++ [y]) in H.
    rewrite app_assoc in H. apply app_inj_tail in H. destruct H as [-> _].
    apply Hl. apply in_or_app. right. left. reflexivity.
Qed.

Lemma load_out (b : buffer) (p : ptr) : p < 0 -> load b p = Oob p.
Proof.
  intro H. unfold load, in_bounds.
  replace (0 <=? p) with false by (symmetry; apply Z.leb_gt; exact H).
  reflexivity.
Qed.

Lemma strchr_start (l : text) (c : ascii) :
  strchr (c_object l) 0 c = scan (c_object l) 0 c.
Proof.
  unfold strchr, in_bounds, c_object. rewrite length_app. cbn [length].
  replace (0 <? Z.of_nat (length l + 1)) with true
    by (symmetry; apply Z.ltb_lt; lia).
  reflexivity.
Qed.

Lemma strchr_rest (b : buffer) (p : ptr) (c : ascii) (pre rest : text) :
  b = pre ++ rest -> p = Z.of_nat (length pre) -> rest <> [] ->
  strchr b p c = scan rest p c.
Proof.
  intros -> -> Hr. destruct rest as [|x rest]; [contradiction|].
  unfold strchr. rewrite in_bounds_mid, skipn_mid. reflexivity.
Qed.

Lemma terminated_not_nil (s : text) : s ++ [NUL] <> [].
Proof. destruct s; discriminate. Qed.

Lemma parse_backtrace_line_shape_b_inv (line : text) (f : fields) (mem : buffer) :
  is_cstring line -> ~ In "(" line ->
  parse_backtrace_line (c_object line) = Ok (Some (f, mem)) ->
  exists m a,
    line = shape_b m a /\
    f = mkFields 0 None None (Z.of_nat (length m) + 2) /\
    mem = m ++ NUL :: "[" :: a ++ [NUL; NUL].
Proof.
  intros Hl Hp H. unfold parse_backtrace_line in H.
  rewrite (strchr_none_at _ _ "(" [] line []) in H;
    [ | layout | position | apply passes_intro; assumption | discriminate ].
  cbn [res_bind] in H.
  rewrite strchr_start in H.
  destruct (scan (c_object line) 0 "[") as [[bracket|]| |] eqn:Hb;
    cbn [res_bind] in H; try discriminate.
  apply scan_some in Hb. destruct Hb as (s1 & post & Hbuf & -> & Hs1).
  unfold c_object in Hbuf.
  destruct (terminated_split _ _ _ _ Hbuf) as (post' & -> & Hline);
    [discriminate|].
  destruct s1 as [|x s1 _] using rev_ind.
  { rewrite load_out in H by (cbn [length]; lia). discriminate. }
  rewrite (load_at _ _ s1 ("[" :: post' ++ [NUL]) x) in H;
    [ | rewrite Hline; layout | position ].
  cbn [res_bind] in H.
  destruct (Ascii.eqb x " ") eqn:Ex; cbn [negb] in H; [|discriminate].
  apply Ascii.eqb_eq in Ex. subst x.
  rewrite (store_at _ _ s1 ("[" :: post' ++ [NUL]) " ") in H;
    [ | rewrite Hline; layout | position ].
  cbn [res_bind] in H. unfold parse_address in H.
  rewrite (load_at _ _ (s1 ++ [NUL]) (post' ++ [NUL]) "[") in H;
    [ | layout | position ].
  cbn [res_bind] in H. rewrite ascii_eqb_refl in H. cbn [negb] in H.
  rewrite (strchr_rest _ _ _ (s1 ++ [NUL; "["]) (post' ++ [NUL])) in H;
    [ | layout | position | apply terminated_not_nil ].
  match type of H with
  | context [scan ?s ?p ?c] =>
      destruct (scan s p c) as [[close|]| |] eqn:Hc
  end; cbn [res_bind] in H; try discriminate.
  apply scan_some in Hc. destruct Hc as (s2 & post2 & Hpost & -> & Hs2).
  destruct (terminated_split _ _ _ _ Hpost) as (post2' & -> & ->);
    [discriminate|].
  destruct post2' as [|y post2'].
  - rewrite (load_at _ _ (s1 ++ NUL :: "[" :: s2 ++ ["]"]) [] NUL) in H;
      [ | layout | position ].
    cbn [res_bind] in H. rewrite ascii_eqb_refl in H. cbn [negb] in H.
    rewrite (store_at _ _ (s1 ++ NUL :: "[" :: s2) [NUL] "]") in H;
      [ | layout | position ].
    cbn [res_bind] in H. inversion H. subst f mem.
    exists s1, s2. split; [rewrite Hline; unfold shape_b; layout|].
    split; [ f_equal; position | layout ].
  - exfalso.
    rewrite (load_at _ _ (s1 ++ NUL :: "[" :: s2 ++ ["]"])
               (post2' ++ [NUL]) y) in H;
      [ | layout | position ].
    cbn [res_bind] in H.
    destruct (Ascii.eqb y NUL) eqn:Ey; cbn [negb] in H; [|discriminate].
    apply Ascii.eqb_eq in Ey. subst y.
    apply Hl. rewrite Hline.
    apply in_or_app. right. right. apply in_or_app. right. right. left.
    reflexivity.
Qed.

Lemma passes_is_cstring (c : ascii) (s : text) : passes c s -> is_cstring s.
Proof.
  intros H Hin. unfold passes in H. rewrite Forall_forall in H.
  destruct (H _ Hin) as [_ Hn]. apply Hn. reflexivity.
Qed.

Lemma read_fields_shape_b (m a : text) :
  is_cstring m -> is_cstring a ->
  read_fields (mkFields 0 None None (Z.of_nat (length m) + 2))
    (m ++ NUL :: "[" :: a ++ [NUL; NUL]) =
  Ok (mkSymbol m None None a).
Proof.
  intros Hm Ha. unfold read_fields, c_str_opt.
  cbn [filename function offset address].
  rewrite (c_str_at _ _ [] m ("[" :: a ++ [NUL; NUL]));
    [ | layout | position | assumption ].
  cbn [res_bind].
  rewrite (c_str_at _ _ (m ++ [NUL; "["]) a [NUL]);
    [ | layout | position | assumption ].
  reflexivity.
Qed.

Lemma parse_shape_b_inv (line : text) (s : symbol) :
  is_cstring line -> ~ In "(" line -> parse line = Ok (Some s) ->
  exists m a, line = shape_b m a /\ s = mkSymbol m None None a.
Proof.
  intros Hl Hp H. unfold parse in H.
  rewrite scoped_copy_cstring in H by exact Hl. cbn [res_bind] in H.
  destruct (parse_backtrace_line (c_object line)) as [[[f mem]|]| |] eqn:Hparse;
    cbn [res_bind] in H; try discriminate.
  destruct (parse_backtrace_line_shape_b_inv _ _ _ Hl Hp Hparse)
    as (m & a & Hline & -> & ->).
  exists m, a. split; [exact Hline|].
  assert (Hm : is_cstring m /\ is_cstring a).
  { rewrite Hline in Hl. unfold shape_b in Hl.
    apply is_cstring_app in Hl. destruct Hl as [Hm Hl].
    apply is_cstring_cons in Hl. destruct Hl as [_ Hl].
    apply is_cstring_cons in Hl. destruct Hl as [_ Hl].
    apply is_cstring_app in Hl. tauto. }
  rewrite read_fields_shape_b in H by tauto.
  cbn [res_bind] in H. congruence.
Qed.

(** ** The out-parameters of an accepted line *)

Lemma parse_address_fields (mem : buffer) (file : ptr) (func off : option ptr)
    (line : ptr) (f : fields) (mem' : buffer) :
  parse_address mem file func off line = Ok (Some (f, mem')) ->
  filename f = file /\ function f = func /\ offset f = off.
Proof.
  unfold parse_address. intro H.
  destruct (load mem line) as [c| |]; cbn [res_bind] in H; try discriminate.
  destruct (negb (Ascii.eqb c "[")); [discriminate|].
  destruct (strchr mem (line + 1) "]") as [[close|]| |];
    cbn [res_bind] in H; try discriminate.
  destruct (load mem (close + 1)) as [c'| |]; cbn [res_bind] in H;
    try discriminate.
  destruct (negb (Ascii.eqb c' NUL)); [discriminate|].
  destruct (store mem close NUL) as [mem2| |]; cbn [res_bind] in H;
    try discriminate.
  inversion H. subst. cbn. auto.
Qed.

Lemma function_offset_together (mem : buffer) (f : fields) (mem' : buffer) :
  parse_backtrace_line mem = Ok (Some (f, mem')) ->
  (function f = None /\ offset f = None) \/
  (exists fn off, function f = Some fn /\ offset f = Some off).
Proof.
  unfold parse_backtrace_line. intro H.
  destruct (strchr mem 0 "(") as [[paren1|]| |]; cbn [res_bind] in H;
    try discriminate.
  - destruct (strchr mem 0 ")") as [[paren2|]| |]; cbn [res_bind] in H;
      try discriminate.
    destruct (store mem paren2 NUL) as [mem1| |]; cbn [res_bind] in H;
      try discriminate.
    destruct (store mem1 paren1 NUL) as [mem2| |]; cbn [res_bind] in H;
      try discriminate.
    destruct (strchr mem2 (paren1 + 1) "+") as [[plus|]| |];
      cbn [res_bind] in H; try discriminate.
    destruct (store mem2 plus NUL) as [mem3| |]; cbn [res_bind] in H;
      try discriminate.
    destruct (load mem3 (paren2 + 1)) as [c| |]; cbn [res_bind] in H;
      try discriminate.
    destruct (negb (Ascii.eqb c " ")); [discriminate|].
    apply parse_address_fields in H. right. do 2 eexists. split; apply H.
  - destruct (strchr mem 0 "[") as [[bracket|]| |]; cbn [res_bind] in H;
      try discriminate.
    destruct (load mem (bracket - 1)) as [c| |]; cbn [res_bind] in H;
      try discriminate.
    destruct (negb (Ascii.eqb c " ")); [discriminate|].
    destruct (store mem (bracket - 1) NUL) as [mem1| |]; cbn [res_bind] in H;
      try discriminate.
    apply parse_address_fields in H. left. split; apply H.
Qed.

Lemma parse_some (line : text) (s : symbol) :
  parse line = Ok (Some s) ->
  exists mem f mem',
    scoped_copy line = Ok mem /\
    parse_backtrace_line mem = Ok (Some (f, mem')) /\
    read_fields f mem' = Ok s.
Proof.
  unfold parse. intro H.
  destruct (scoped_copy line) as [mem| |] eqn:Hc; cbn [res_bind] in H;
    try discriminate.
  destruct (parse_backtrace_line mem) as [[[f mem']|]| |] eqn:Hp;
    cbn [res_bind] in H; try discriminate.
  destruct (read_fields f mem') as [s'| |] eqn:Hr; cbn [res_bind] in H;
    try discriminate.
  exists mem, f, mem'. inversion H. subst s'. auto.
Qed.

Lemma parse_none (line : text) :
  parse line = Ok None ->
  exists mem, scoped_copy line = Ok mem /\ parse_backtrace_line mem = Ok None.
Proof.
  unfold parse. intro H.
  destruct (scoped_copy line) as [mem| |] eqn:Hc; cbn [res_bind] in H;
    try discriminate.
  destruct (parse_backtrace_line mem) as [[[f mem']|]| |] eqn:Hp;
    cbn [res_bind] in H; try discriminate.
  - destruct (read_fields f mem') as [s'| |]; discriminate.
  - exists mem. auto.
Qed.

Lemma read_fields_some (f : fields) (mem : buffer) (s : symbol) :
  read_fields f mem = Ok s ->
  c_str mem (filename f) = Ok (sym_module s) /\
  c_str_opt mem (function f) = Ok (sym_function s) /\
  c_str_opt mem (offset f) = Ok (sym_offset s) /\
  c_str mem (address f) = Ok (sym_address s).
Proof.
  unfold read_fields. intro H.
  destruct (c_str mem (filename f)) as [m| |]; cbn [res_bind] in H;
    try discriminate.
  destruct (c_str_opt mem (function f)) as [fn| |]; cbn [res_bind] in H;
    try discriminate.
  destruct (c_str_opt mem (offset f)) as [off| |]; cbn [res_bind] in H;
    try discriminate.
  destruct (c_str mem (address f)) as [a| |]; cbn [res_bind] in H;
    try discriminate.
  inversion H. cbn. auto.
Qed.

(** ** The lines that are accepted *)

Lemma split_before_nul (f mid postf rest : text) (c : ascii) :
  f ++ c :: postf = mid ++ NUL :: rest ->
  is_cstring f -> c <> NUL -> is_cstring mid ->
  exists o, mid = f ++ c :: o /\ postf = o ++ NUL :: rest.
Proof.
  revert mid. induction f as [|y f IH]; intros [|x mid] H Hf Hc Hm;
    cbn [app] in H; inversion H; subst.
  - contradiction.
  - exists mid. split; reflexivity.
  - exfalso. apply Hf. left. reflexivity.
  - apply is_cstring_cons in Hf, Hm.
    destruct (IH mid) as (o & -> & ->); try tauto.
    exists o. split; reflexivity.
Qed.

Lemma two_splits (s1 p1 s2 p2 : text) (a b : ascii) :
  s1 ++ a :: p1 = s2 ++ b :: p2 -> a <> b ->
  (exists mid, s2 = s1 ++ a :: mid /\ p1 = mid ++ b :: p2) \/
  (exists mid, s1 = s2 ++ b :: mid /\ p2 = mid ++ a :: p1).
Proof.
  revert s2. induction s1 as [|y s1 IH]; intros [|x s2] H Hab;
    cbn [app] in H; inversion H; subst.
  - contradiction.
  - left. exists s2. split; reflexivity.
  - right. exists s1. split; reflexivity.
  - destruct (IH s2) as [(mid & -> & ->) | (mid & -> & ->)]; try assumption.
    + left. exists mid. split; reflexivity.
    + right. exists mid. split; reflexivity.
Qed.

Lemma not_nil_app_cons (s : text) (x : ascii) (t : text) : s ++ x :: t <> [].
Proof. destruct s; discriminate. Qed.

(** The tail of both paths: from the opening bracket on. *)
Lemma parse_address_inv (mem pre t post : text) (file : ptr)
    (func off : option ptr) (f : fields) (mem' : buffer) :
  mem = pre ++ t ++ NUL :: post -> is_cstring t ->
  parse_address mem file func off (Z.of_nat (length pre)) = Ok (Some (f, mem')) ->
  exists a,
    t = "[" :: a ++ ["]"] /\
    f = mkFields file func off (Z.of_nat (length pre) + 1) /\
    mem' = pre ++ "[" :: a ++ NUL :: NUL :: post.
Proof.
  intros -> Ht H. unfold parse_address in H.
  destruct t as [|x t].
  { rewrite (load_at _ _ pre post NUL) in H; [ | layout | position ].
    cbn [res_bind] in H. discriminate. }
  apply is_cstring_cons in Ht. destruct Ht as [_ Ht].
  rewrite (load_at _ _ pre (t ++ NUL :: post) x) in H; [ | layout | position ].
  cbn [res_bind] in H.
  destruct (Ascii.eqb x "[") eqn:Ex; cbn [negb] in H; [|discriminate].
  apply Ascii.eqb_eq in Ex. subst x.
  rewrite (strchr_rest _ _ _ (pre ++ ["["]) (t ++ NUL :: post)) in H;
    [ | layout | position | apply not_nil_app_cons ].
  match type of H with
  | context [scan ?s ?p ?c] =>
      destruct (scan s p c) as [[close|]| |] eqn:Hc
  end; cbn [res_bind] in H; try discriminate.
  apply scan_some in Hc. destruct Hc as (a & post2 & Hsplit & -> & Ha).
  destruct (split_before_nul _ _ _ _ _ (eq_sym Hsplit)) as (o & -> & ->);
    [exact (passes_is_cstring _ _ Ha) | discriminate | exact Ht |].
  destruct o as [|y o].
  - rewrite (load_at _ _ (pre ++ "[" :: a ++ ["]"]) post NUL) in H;
      [ | layout | position ].
    cbn [res_bind] in H. rewrite ascii_eqb_refl in H. cbn [negb] in H.
    rewrite (store_at _ _ (pre ++ "[" :: a) (NUL :: post) "]") in H;
      [ | layout | position ].
    cbn [res_bind] in H. inversion H. subst f mem'.
    exists a. split; [reflexivity|]. split; [reflexivity | layout].
  - exfalso.
    rewrite (load_at _ _ (pre ++ "[" :: a ++ ["]"]) (o ++ NUL :: post) y) in H;
      [ | layout | position ].
    cbn [res_bind] in H.
    destruct (Ascii.eqb y NUL) eqn:Ey; cbn [negb] in H; [|discriminate].
    apply Ascii.eqb_eq in Ey. subst y.
    apply Ht. apply in_or_app. right. right. left. reflexivity.
Qed.

Lemma parse_backtrace_line_paren_inv (line : text) (paren1 : ptr)
    (f : fields) (mem : buffer) :
  is_cstring line ->
  scan (c_object line) 0 "(" = Ok (Some paren1) ->
  parse_backtrace_line (c_object line) = Ok (Some (f, mem)) ->
  (exists m fn o a,
     line = shape_a m fn o a /\ ~ In "(" m /\
     f = mkFields 0 (Some (Z.of_nat (length m) + 1))
           (Some (Z.of_nat (length m) + Z.of_nat (length fn) + 2))
           (Z.of_nat (length m) + Z.of_nat (length fn) +
            Z.of_nat (length o) + 5) /\
     mem = m ++ NUL :: fn ++ NUL :: o ++ NUL :: " " :: "[" :: a ++ [NUL; NUL]) \/
  (exists m a fn o,
     line = shape_closed_first m a fn o /\ ~ In "(" m /\
     f = mkFields 0 (Some (Z.of_nat (length m) + Z.of_nat (length a) + 5))
           (Some (Z.of_nat (length m) + Z.of_nat (length a) +
                  Z.of_nat (length fn) + 6))
           (Z.of_nat (length m) + 3) /\
     mem = m ++ NUL :: " " :: "[" :: a ++ NUL :: NUL :: fn ++ NUL :: o ++ [NUL]).
Proof.
  intros Hl Hscan H. unfold parse_backtrace_line in H.
  rewrite strchr_start, Hscan in H. cbn [res_bind] in H.
  rewrite strchr_start in H.
  destruct (scan (c_object line) 0 ")") as [[paren2|]| |] eqn:Hscan2;
    cbn [res_bind] in H; try discriminate.
  apply scan_some in Hscan. destruct Hscan as (s1 & post1 & Hb1 & -> & Hs1).
  apply scan_some in Hscan2. destruct Hscan2 as (s2 & post2 & Hb2 & -> & Hs2).
  unfold c_object in Hb1, Hb2.
  destruct (terminated_split _ _ _ _ Hb1) as (p1 & -> & Hline1);
    [discriminate|].
  destruct (terminated_split _ _ _ _ Hb2) as (p2 & -> & Hline2);
    [discriminate|].
  clear Hb1 Hb2.
  assert (Hsplit : s1 ++ "(" :: p1 = s2 ++ ")" :: p2) by congruence.
  destruct (two_splits _ _ _ _ _ _ Hsplit) as [(mid & E1 & E2) | (mid & E1 & E2)];
    [discriminate | | ]; subst; clear Hsplit Hline2.
  - (* the closing parenthesis after the opening one *)
    left.
    assert (Hmid : is_cstring mid).
    { apply is_cstring_app in Hl. destruct Hl as [_ Hl].
      apply is_cstring_cons in Hl. destruct Hl as [_ Hl].
      apply is_cstring_app in Hl. tauto. }
    rewrite (store_at _ _ (s1 ++ "(" :: mid) (p2 ++ [NUL]) ")") in H;
      [ | layout | position ].
    cbn [res_bind] in H.
    rewrite (store_at _ _ s1 (mid ++ NUL :: p2 ++ [NUL]) "(") in H;
      [ | layout | position ].
    cbn [res_bind] in H.
    rewrite (strchr_rest _ _ _ (s1 ++ [NUL]) (mid ++ NUL :: p2 ++ [NUL])) in H;
      [ | layout | position | apply not_nil_app_cons ].
    match type of H with
    | context [scan ?s ?p ?c] =>
        destruct (scan s p c) as [[plus|]| |] eqn:Hplus
    end; cbn [res_bind] in H; try discriminate.
    apply scan_some in Hplus. destruct Hplus as (fn & postf & Hsp & -> & Hfn).
    destruct (split_before_nul _ _ _ _ _ (eq_sym Hsp)) as (o & -> & ->);
      [exact (passes_is_cstring _ _ Hfn) | discriminate | exact Hmid |].
    rewrite (store_at _ _ (s1 ++ NUL :: fn) (o ++ NUL :: p2 ++ [NUL]) "+") in H;
      [ | layout | position ].
    cbn [res_bind] in H.
    destruct p2 as [|c p2].
    { rewrite (load_at _ _ (s1 ++ NUL :: fn ++ NUL :: o ++ [NUL]) [] NUL) in H;
        [ | layout | position ].
      cbn [res_bind] in H. discriminate. }
    rewrite (load_at _ _ (s1 ++ NUL :: fn ++ NUL :: o ++ [NUL]) (p2 ++ [NUL]) c)
      in H; [ | layout | position ].
    cbn [res_bind] in H.
    destruct (Ascii.eqb c " ") eqn:Ec; cbn [negb] in H; [|discriminate].
    apply Ascii.eqb_eq in Ec. subst c.
    assert (Hp2 : is_cstring p2).
    { apply is_cstring_app in Hl. destruct Hl as [_ Hl].
      apply is_cstring_cons in Hl. destruct Hl as [_ Hl].
      apply is_cstring_app in Hl. destruct Hl as [_ Hl].
      apply is_cstring_cons in Hl. destruct Hl as [_ Hl].
      apply is_cstring_cons in Hl. tauto. }
    match type of H with
    | parse_address ?b _ _ _ ?p = _ =>
        replace p with
          (Z.of_nat (length (s1 ++ NUL :: fn ++ NUL :: o ++ [NUL; " "]))) in H
          by position;
        destruct (parse_address_inv b
                    (s1 ++ NUL :: fn ++ NUL :: o ++ [NUL; " "]) p2 []
                    _ _ _ _ _ ltac:(layout) Hp2 H)
          as (a & -> & -> & ->)
    end.
    exists s1, fn, o, a. split; [unfold shape_a; layout|].
    split; [exact (passes_not_in _ _ Hs1)|].
    split; [ f_equal; repeat first [ position | f_equal ] | layout ].
  - (* the closing parenthesis before the opening one *)
    right.
    assert (Hmid : is_cstring mid).
    { apply is_cstring_app in Hl. destruct Hl as [Hl _].
      apply is_cstring_app in Hl. destruct Hl as [_ Hl].
      apply is_cstring_cons in Hl. tauto. }
    rewrite (store_at _ _ s2 (mid ++ "(" :: p1 ++ [NUL]) ")") in H;
      [ | layout | position ].
    cbn [res_bind] in H.
    rewrite (store_at _ _ (s2 ++ NUL :: mid) (p1 ++ [NUL]) "(") in H;
      [ | layout | position ].
    cbn [res_bind] in H.
    rewrite (strchr_rest _ _ _ (s2 ++ NUL :: mid ++ [NUL]) (p1 ++ [NUL])) in H;
      [ | layout | position | apply terminated_not_nil ].
    match type of H with
    | context [scan ?s ?p ?c] =>
        destruct (scan s p c) as [[plus|]| |] eqn:Hplus
    end; cbn [res_bind] in H; try discriminate.
    apply scan_some in Hplus. destruct Hplus as (fn & postf & Hsp & -> & Hfn).
    destruct (terminated_split _ _ _ _ Hsp) as (o & -> & ->); [discriminate|].
    rewrite (store_at _ _ (s2 ++ NUL :: mid ++ NUL :: fn) (o ++ [NUL]) "+") in H;
      [ | layout | position ].
    cbn [res_bind] in H.
    destruct mid as [|c mid].
    { rewrite (load_at _ _ (s2 ++ [NUL]) (fn ++ NUL :: o ++ [NUL]) NUL) in H;
        [ | layout | position ].
      cbn [res_bind] in H. discriminate. }
    rewrite (load_at _ _ (s2 ++ [NUL]) (mid ++ NUL :: fn ++ NUL :: o ++ [NUL]) c)
      in H; [ | layout | position ].
    cbn [res_bind] in H.
    destruct (Ascii.eqb c " ") eqn:Ec; cbn [negb] in H; [|discriminate].
    apply Ascii.eqb_eq in Ec. subst c.
    apply is_cstring_cons in Hmid. destruct Hmid as [_ Hmid].
    match type of H with
    | parse_address ?b _ _ _ ?p = _ =>
        replace p with (Z.of_nat (length (s2 ++ [NUL; " "]))) in H
          by position;
        destruct (parse_address_inv b (s2 ++ [NUL; " "]) mid
                    (fn ++ NUL :: o ++ [NUL])
                    _ _ _ _ _ ltac:(layout) Hmid H)
          as (a & -> & -> & ->)
    end.
    exists s2, a, fn, o. split; [unfold shape_closed_first; layout|].
    split.
    { intro Hin. apply (passes_not_in _ _ Hs1).
      apply in_or_app. left. exact Hin. }
    split; [ f_equal; repeat first [ position | f_equal ] | layout ].
Qed.

Lemma read_fields_shape_closed_first (m a f o : text) :
  is_cstring m -> is_cstring a -> is_cstring f -> is_cstring o ->
  read_fields
    (mkFields 0 (Some (Z.of_nat (length m) + Z.of_nat (length a) + 5))
       (Some (Z.of_nat (length m) + Z.of_nat (length a) +
              Z.of_nat (length f) + 6))
       (Z.of_nat (length m) + 3))
    (m ++ NUL :: " " :: "[" :: a ++ NUL :: NUL :: f ++ NUL :: o ++ [NUL]) =
  Ok (mkSymbol m (Some f) (Some o) a).
Proof.
  intros Hm Ha Hf Ho. unfold read_fields, c_str_opt.
  cbn [filename function offset address].
  rewrite (c_str_at _ _ [] m
             (" " :: "[" :: a ++ NUL :: NUL :: f ++ NUL :: o ++ [NUL]));
    [ | layout | position | assumption ].
  cbn [res_bind].
  rewrite (c_str_at _ _ (m ++ NUL :: " " :: "[" :: a ++ [NUL; NUL]) f
             (o ++ [NUL]));
    [ | layout | position | assumption ].
  cbn [res_bind].
  rewrite (c_str_at _ _ (m ++ NUL :: " " :: "[" :: a ++ NUL :: NUL :: f ++ [NUL])
             o []);
    [ | layout | position | assumption ].
  cbn [res_bind].
  rewrite (c_str_at _ _ (m ++ [NUL; " "; "["]) a
             (NUL :: f ++ NUL :: o ++ [NUL]));
    [ | layout | position | assumption ].
  reflexivity.
Qed.

Ltac cstring_parts H :=
  repeat match type of H with
         | is_cstring (_ ++ _) =>
             let H1 := fresh "Hpart" in
             apply is_cstring_app in H; destruct H as [H1 H]
         | is_cstring (_ :: _) =>
             apply is_cstring_cons in H; destruct H as [_ H]
         end.

(** Every accepted C string has one of three shapes, and the fields read
    back are the parts of that shape. *)
Theorem accepted_shapes (line : text) (s : symbol) :
  is_cstring line -> parse line = Ok (Some s) ->
  (exists m a,
     line = shape_b m a /\ s = mkSymbol m None None a) \/
  (exists m f o a,
     line = shape_a m f o a /\ s = mkSymbol m (Some f) (Some o) a) \/
  (exists m a f o,
     line = shape_closed_first m a f o /\ ~ In "(" m /\
     s = mkSymbol m (Some f) (Some o) a).
Proof.
  intros Hl H.
  destruct (scan (c_object line) 0 "(") as [[paren1|]| |] eqn:Hscan.
  - right. unfold parse in H.
    rewrite scoped_copy_cstring in H by exact Hl. cbn [res_bind] in H.
    destruct (parse_backtrace_line (c_object line)) as [[[f mem]|]| |] eqn:Hp;
      cbn [res_bind] in H; try discriminate.
    destruct (parse_backtrace_line_paren_inv _ _ _ _ Hl Hscan Hp)
      as [(m & fn & o & a & Hline & _ & -> & ->)
         | (m & a & fn & o & Hline & Hm & -> & ->)].
    + left. exists m, fn, o, a. split; [exact Hline|].
      rewrite Hline in Hl. unfold shape_a in Hl. cstring_parts Hl.
      rewrite read_fields_shape_a in H by assumption.
      cbn [res_bind] in H. congruence.
    + right. exists m, a, fn, o. split; [exact Hline|]. split; [exact Hm|].
      rewrite Hline in Hl. unfold shape_closed_first in Hl. cstring_parts Hl.
      rewrite read_fields_shape_closed_first in H by assumption.
      cbn [res_bind] in H. congruence.
  - left. apply parse_shape_b_inv; [exact Hl | | exact H].
    apply scan_none in Hscan. destruct Hscan as (s1 & post & Hb & Hs1 & _).
    destruct (cstring_first_nul _ _ _ Hl Hb) as [-> _].
    exact (passes_not_in _ _ Hs1).
  - exfalso. destruct (scan_terminated line 0 "(") as [r Hr].
    unfold c_object in Hscan. congruence.
  - exfalso. destruct (scan_terminated line 0 "(") as [r Hr].
    unfold c_object in Hscan. congruence.
Qed.

Lemma last_snoc (s : text) (c d : ascii) : last (s ++ [c]) d = c.
Proof. apply last_last. Qed.

(** X3. The check that the closing bracket ends the line holds its promise on
    every line in which each closing parenthesis has an opening one before
    it. *)
Theorem accepted_line_ends_with_bracket (line : text) (s : symbol) :
  is_cstring line ->
  (forall pre post, line = pre ++ ")" :: post -> In "(" pre) ->
  parse line = Ok (Some s) ->
  last line NUL = "]".
Proof.
  intros Hl Hparen H.
  destruct (accepted_shapes _ _ Hl H)
    as [(m & a & -> & _) | [(m & f & o & a & -> & _)
                           | (m & a & f & o & Hline & Hm & _)]].
  - unfold shape_b.
    change (m ++ " " :: "[" :: a ++ ["]"])
      with (m ++ [" "; "["] ++ a ++ ["]"]).
    rewrite !app_assoc. apply last_snoc.
  - unfold shape_a.
    change (m ++ "(" :: f ++ "+" :: o ++ ")" :: " " :: "[" :: a ++ ["]"])
      with (m ++ ["("] ++ f ++ ["+"] ++ o ++ [")"; " "; "["] ++ a ++ ["]"]).
    rewrite !app_assoc. apply last_snoc.
  - exfalso. apply Hm. apply (Hparen m (" " :: "[" :: a ++ "]" :: "(" :: f ++ "+" :: o)).
    exact Hline.
Qed.

(** ** Which accesses stay inside the buffer *)

Lemma load_in_bounds (b : buffer) (p : ptr) (c : ascii) :
  load b p = Ok c -> in_bounds b p = true.
Proof. unfold load. destruct (in_bounds b p); [reflexivity | discriminate]. Qed.

Lemma in_bounds_load (b : buffer) (p : ptr) :
  in_bounds b p = true -> exists c, load b p = Ok c.
Proof. intro H. unfold load. rewrite H. eexists; reflexivity. Qed.

Lemma length_poke (b : buffer) (n : nat) (c : ascii) :
  length (poke b n c) = length b.
Proof.
  revert n. induction b as [|x b IH]; intros [|n]; cbn [poke length];
    try reflexivity.
  rewrite IH. reflexivity.
Qed.

Lemma store_in_bounds (b b' : buffer) (p q : ptr) (c : ascii) :
  store b p c = Ok b' -> in_bounds b' q = in_bounds b q.
Proof.
  unfold store. destruct (in_bounds b p); [|discriminate].
  intro H. inversion H. unfold in_bounds. rewrite length_poke. reflexivity.
Qed.

Lemma in_bounds_store (b : buffer) (p : ptr) (c : ascii) :
  in_bounds b p = true -> exists b', store b p c = Ok b'.
Proof. intro H. unfold store. rewrite H. eexists; reflexivity. Qed.

Lemma terminated_poke (b : buffer) (n : nat) :
  terminated b -> terminated (poke b n NUL).
Proof.
  intros [s ->]. revert n. induction s as [|x s IH]; intro n.
  - destruct n as [|[|n]]; exists []; reflexivity.
  - destruct n as [|n]; cbn [poke app].
    + exists (NUL :: s). reflexivity.
    + destruct (IH n) as [t Ht]. rewrite Ht. exists (x :: t). reflexivity.
Qed.

Lemma terminated_store (b b' : buffer) (p : ptr) :
  terminated b -> store b p NUL = Ok b' -> terminated b'.
Proof.
  unfold store. destruct (in_bounds b p); [|discriminate].
  intros Ht H. inversion H. apply terminated_poke. exact Ht.
Qed.

Lemma in_bounds_range (b : buffer) (p : ptr) :
  in_bounds b p = true <-> 0 <= p < Z.of_nat (length b).
Proof.
  unfold in_bounds. rewrite andb_true_iff, Z.leb_le, Z.ltb_lt. tauto.
Qed.

Lemma skipn_terminated (s : text) (n : nat) :
  (n <= length s)%nat -> skipn n (s ++ [NUL]) = skipn n s ++ [NUL].
Proof.
  intro H. rewrite skipn_app.
  replace (n - length s)%nat with 0%nat by lia. reflexivity.
Qed.

Lemma strchr_total (b : buffer) (p : ptr) (c : ascii) :
  terminated b -> in_bounds b p = true -> exists r, strchr b p c = Ok r.
Proof.
  intros [s ->] H. unfold strchr. rewrite H.
  apply in_bounds_range in H. rewrite length_app in H. cbn [length] in H.
  rewrite skipn_terminated by lia. apply scan_terminated.
Qed.

Lemma strchr_some_layout (b : buffer) (p q : ptr) (c : ascii) :
  strchr b p c = Ok (Some q) ->
  exists pre s post,
    b = pre ++ s ++ c :: post /\ p = Z.of_nat (length pre) /\
    q = p + Z.of_nat (length s) /\ passes c s.
Proof.
  unfold strchr. destruct (in_bounds b p) eqn:Hb; [|discriminate].
  intro H. apply scan_some in H. destruct H as (s & post & Hs & -> & Hp).
  apply in_bounds_range in Hb.
  exists (firstn (Z.to_nat p) b), s, post. repeat split.
  - rewrite <- Hs. symmetry. apply firstn_skipn.
  - rewrite length_firstn. lia.
  - exact Hp.
Qed.

Lemma strchr_some_load (b : buffer) (p q : ptr) (c : ascii) :
  strchr b p c = Ok (Some q) -> load b q = Ok c.
Proof.
  intro H. destruct (strchr_some_layout _ _ _ _ H)
    as (pre & s & post & -> & -> & -> & _).
  apply (load_at _ _ (pre ++ s) post c); [layout | position].
Qed.

Lemma next_in_bounds (b : buffer) (p : ptr) (c : ascii) :
  terminated b -> load b p = Ok c -> c <> NUL -> in_bounds b (p + 1) = true.
Proof.
  intros [s ->] H Hc. unfold load in H.
  destruct (in_bounds (s ++ [NUL]) p) eqn:Hb; [|discriminate].
  apply in_bounds_range in Hb. rewrite length_app in Hb. cbn [length] in Hb.
  apply in_bounds_range. rewrite length_app. cbn [length].
  assert (p <> Z.of_nat (length s)).
  { intros ->. inversion H as [E]. rewrite Nat2Z.id in E.
    rewrite app_nth2, Nat.sub_diag in E by lia. cbn in E. congruence. }
  lia.
Qed.

Lemma terminated_object (s : text) : terminated (c_object s).
Proof. exists s. reflexivity. Qed.

Lemma terminated_start (b : buffer) : terminated b -> in_bounds b 0 = true.
Proof.
  intros [s ->]. apply in_bounds_range. rewrite length_app. cbn [length]. lia.
Qed.

Lemma parse_address_stays_inside (mem : buffer) (file : ptr)
    (func off : option ptr) (line : ptr) :
  terminated mem -> in_bounds mem line = true ->
  exists r, parse_address mem file func off line = Ok r.
Proof.
  intros Ht Hb. unfold parse_address.
  destruct (in_bounds_load _ _ Hb) as [c Hc]. rewrite Hc. cbn [res_bind].
  destruct (Ascii.eqb c "[") eqn:Ec; cbn [negb]; [|eexists; reflexivity].
  apply Ascii.eqb_eq in Ec. subst c.
  assert (Hb1 : in_bounds mem (line + 1) = true)
    by (apply (next_in_bounds _ _ _ Ht Hc); discriminate).
  destruct (strchr_total _ _ "]" Ht Hb1) as [[close|] Hs]; rewrite Hs;
    cbn [res_bind]; [|eexists; reflexivity].
  assert (Hl := strchr_some_load _ _ _ _ Hs).
  assert (Hb2 : in_bounds mem (close + 1) = true)
    by (apply (next_in_bounds _ _ _ Ht Hl); discriminate).
  destruct (in_bounds_load _ _ Hb2) as [c' Hc']. rewrite Hc'. cbn [res_bind].
  destruct (negb (Ascii.eqb c' NUL)); [eexists; reflexivity|].
  destruct (in_bounds_store _ _ NUL (load_in_bounds _ _ _ Hl)) as [mem' Hm].
  rewrite Hm. cbn [res_bind]. eexists; reflexivity.
Qed.

(** On a terminated buffer [parse_backtrace_line] returns, or it reads the
    character before the buffer; the latter happens exactly on the path
    without an opening parenthesis when the buffer starts with an opening
    bracket. *)
Theorem parse_backtrace_line_accesses (mem : buffer) :
  terminated mem ->
  (exists r, parse_backtrace_line mem = Ok r) \/
  (parse_backtrace_line mem = Oob (-1) /\
   strchr mem 0 "(" = Ok None /\ load mem 0 = Ok "[").
Proof.
  intro Ht. assert (H0 := terminated_start _ Ht).
  unfold parse_backtrace_line.
  destruct (strchr_total _ _ "(" Ht H0) as [[paren1|] Hp1]; rewrite Hp1;
    cbn [res_bind].
  - left.
    destruct (strchr_total _ _ ")" Ht H0) as [[paren2|] Hp2]; rewrite Hp2;
      cbn [res_bind]; [|eexists; reflexivity].
    assert (Hl1 := strchr_some_load _ _ _ _ Hp1).
    assert (Hl2 := strchr_some_load _ _ _ _ Hp2).
    assert (Hn1 : in_bounds mem (paren1 + 1) = true)
      by (apply (next_in_bounds _ _ _ Ht Hl1); discriminate).
    assert (Hn2 : in_bounds mem (paren2 + 1) = true)
      by (apply (next_in_bounds _ _ _ Ht Hl2); discriminate).
    destruct (in_bounds_store _ _ NUL (load_in_bounds _ _ _ Hl2)) as [mem1 Hm1].
    rewrite Hm1. cbn [res_bind].
    assert (Ht1 := terminated_store _ _ _ Ht Hm1).
    assert (Hb1 : in_bounds mem1 paren1 = true)
      by (rewrite (store_in_bounds _ _ _ _ _ Hm1);
          exact (load_in_bounds _ _ _ Hl1)).
    destruct (in_bounds_store _ _ NUL Hb1) as [mem2 Hm2].
    rewrite Hm2. cbn [res_bind].
    assert (Ht2 := terminated_store _ _ _ Ht1 Hm2).
    assert (Hf : in_bounds mem2 (paren1 + 1) = true)
      by (rewrite (store_in_bounds _ _ _ _ _ Hm2),
                  (store_in_bounds _ _ _ _ _ Hm1); exact Hn1).
    destruct (strchr_total _ _ "+" Ht2 Hf) as [[plus|] Hplus]; rewrite Hplus;
      cbn [res_bind]; [|eexists; reflexivity].
    assert (Hlp := strchr_some_load _ _ _ _ Hplus).
    destruct (in_bounds_store _ _ NUL (load_in_bounds _ _ _ Hlp)) as [mem3 Hm3].
    rewrite Hm3. cbn [res_bind].
    assert (Ht3 := terminated_store _ _ _ Ht2 Hm3).
    assert (Hs : in_bounds mem3 (paren2 + 1) = true)
      by (rewrite (store_in_bounds _ _ _ _ _ Hm3),
                  (store_in_bounds _ _ _ _ _ Hm2),
                  (store_in_bounds _ _ _ _ _ Hm1); exact Hn2).
    destruct (in_bounds_load _ _ Hs) as [c Hc]. rewrite Hc. cbn [res_bind].
    destruct (Ascii.eqb c " ") eqn:Ec; cbn [negb]; [|eexists; reflexivity].
    apply Ascii.eqb_eq in Ec. subst c.
    apply parse_address_stays_inside; [exact Ht3|].
    apply (next_in_bounds _ _ _ Ht3 Hc). discriminate.
  - destruct (strchr_total _ _ "[" Ht H0) as [[bracket|] Hb]; rewrite Hb;
      cbn [res_bind]; [|left; eexists; reflexivity].
    assert (Hlb := strchr_some_load _ _ _ _ Hb).
    assert (Hbb := load_in_bounds _ _ _ Hlb).
    apply in_bounds_range in Hbb.
    destruct (Z.eq_dec bracket 0) as [-> | Hnz].
    + right. rewrite load_out by lia. cbn [res_bind]. auto.
    + left.
      assert (Hprev : in_bounds mem (bracket - 1) = true)
        by (apply in_bounds_range; lia).
      destruct (in_bounds_load _ _ Hprev) as [c Hc]. rewrite Hc.
      cbn [res_bind].
      destruct (negb (Ascii.eqb c " ")); [eexists; reflexivity|].
      destruct (in_bounds_store _ _ NUL Hprev) as [mem1 Hm1].
      rewrite Hm1. cbn [res_bind].
      apply parse_address_stays_inside.
      * exact (terminated_store _ _ _ Ht Hm1).
      * rewrite (store_in_bounds _ _ _ _ _ Hm1).
        replace (bracket - 1 + 1) with bracket by lia.
        exact (load_in_bounds _ _ _ Hlb).
Qed.

(** X1. A C string is parsed, one way or the other, unless it starts with an
    opening bracket and has no opening parenthesis. *)
Theorem parse_total (line : text) :
  is_cstring line ->
  (exists r, parse line = Ok r) \/
  (parse line = Oob (-1) /\ exists rest, line = "[" :: rest /\ ~ In "(" line).
Proof.
  intro Hl.
  destruct (parse_backtrace_line_accesses _ (terminated_object line))
    as [[r Hr] | (Hoob & Hopen & Hfirst)].
  - left. destruct r as [[f mem]|].
    + assert (Hs : exists s, read_fields f mem = Ok s).
      { destruct (scan (c_object line) 0 "(") as [[paren1|]| |] eqn:Hscan.
        - destruct (parse_backtrace_line_paren_inv _ _ _ _ Hl Hscan Hr)
            as [(m & fn & o & a & Hline & _ & -> & ->)
               | (m & a & fn & o & Hline & _ & -> & ->)];
            rewrite Hline in Hl.
          + unfold shape_a in Hl. cstring_parts Hl. eexists.
            apply read_fields_shape_a; assumption.
          + unfold shape_closed_first in Hl. cstring_parts Hl. eexists.
            apply read_fields_shape_closed_first; assumption.
        - apply scan_none in Hscan.
          destruct Hscan as (s1 & post & Hb & Hs1 & _).
          destruct (cstring_first_nul _ _ _ Hl Hb) as [<- _].
          destruct (parse_backtrace_line_shape_b_inv _ _ _ Hl
                      (passes_not_in _ _ Hs1) Hr) as (m & a & Hline & -> & ->).
          rewrite Hline in Hl. unfold shape_b in Hl. cstring_parts Hl.
          eexists. apply read_fields_shape_b; assumption.
        - exfalso. destruct (scan_terminated line 0 "(") as [r' Hr'].
          unfold c_object in Hscan. congruence.
        - exfalso. destruct (scan_terminated line 0 "(") as [r' Hr'].
          unfold c_object in Hscan. congruence. }
      destruct Hs as [s Hs]. exists (Some s). unfold parse.
      rewrite scoped_copy_cstring by exact Hl. cbn [res_bind].
      rewrite Hr. cbn [res_bind]. rewrite Hs. reflexivity.
    + exists None. unfold parse.
      rewrite scoped_copy_cstring by exact Hl. cbn [res_bind].
      rewrite Hr. reflexivity.
  - right. split.
    + unfold parse. rewrite scoped_copy_cstring by exact Hl. cbn [res_bind].
      rewrite Hoob. reflexivity.
    + rewrite strchr_start in Hopen. apply scan_none in Hopen.
      destruct Hopen as (s1 & post & Hb & Hs1 & _).
      destruct (cstring_first_nul _ _ _ Hl Hb) as [<- _].
      destruct line as [|c rest]; [discriminate|].
      inversion Hfirst. subst c. exists rest. split; [reflexivity|].
      exact (passes_not_in _ _ Hs1).
Qed.

(** ** Sequencing in [IO] *)

Lemma bind_lift_ok {A B} (a : A) (k : A -> IO B) (w : world) :
  io_bind (lift (Ok a)) k w = k a w.
Proof. reflexivity. Qed.

Lemma bind_ret {A B} (a : A) (k : A -> IO B) (w : world) :
  io_bind (io_ret a) k w = k a w.
Proof. reflexivity. Qed.

Lemma bind_fputs {B} (s : text) (k : unit -> IO B) (w : world) :
  io_bind (fputs s) k w = k tt (mkWorld (out w ++ s) (spawned w)).
Proof. reflexivity. Qed.

Lemma bind_assoc {A B C} (m : IO A) (k : A -> IO B) (h : B -> IO C) (w : world) :
  io_bind (io_bind m k) h w = io_bind m (fun a => io_bind (k a) h) w.
Proof.
  unfold io_bind. destruct (m w) as [[a w']| |]; reflexivity.
Qed.

Lemma io_bind_ext {A B} (m m' : IO A) (k k' : A -> IO B) (w : world) :
  m w = m' w -> (forall a w', k a w' = k' a w') ->
  io_bind m k w = io_bind m' k' w.
Proof.
  intros Hm Hk. unfold io_bind. rewrite Hm.
  destruct (m' w) as [[a w']| |]; [apply Hk | reflexivity | reflexivity].
Qed.

Section Report.

Variable cxa_demangle : text -> option text.
Variable popen_read : text -> option text.

Local Open Scope io_scope.

Local Abbreviation print_frame := (print_frame cxa_demangle popen_read).
Local Abbreviation print_frames := (print_frames cxa_demangle popen_read).
Local Abbreviation print_backtrace := (print_backtrace cxa_demangle popen_read).
Local Abbreviation run_addr2line := (run_addr2line popen_read).
Local Abbreviation demangle_cpp_name := (demangle_cpp_name cxa_demangle).

(** A frame whose line parses, written in terms of the parsed fields. *)
Lemma print_frame_parsed (use_addr2line : bool) (i : nat) (symbol_i : text)
    (s : symbol) (w : world) :
  parse symbol_i = Ok (Some s) ->
  print_frame use_addr2line i symbol_i w =
  (fputs (dec (i + 1) ++ chars ": ") ;;
   match sym_function s with
   | Some name =>
       match demangle_cpp_name name with
       | inl demangled => fputs demangled
       | inr _ =>
           match sym_offset s with
           | Some off => fputs (name ++ chars "+" ++ off)
           | None => lift Null
           end
       end
   | None => fputs (chars "?")
   end ;;
   fputs (chars " at ") ;;
   r <- (if use_addr2line
         then run_addr2line (sym_module s) (sym_address s) (repeat NUL 255) 255
         else io_ret (false, repeat NUL 255)) ;;
   let '(found, line) := r in
   (if found
    then t <- lift (c_str line 0) ;; fputs t
    else fputs (sym_address s ++ chars " (" ++ sym_module s ++ chars ")")) ;;
   fputs [LF]) w.
Proof.
  intro H. destruct (parse_some _ _ H) as (mem & f & mem' & Hc & Hp & Hr).
  destruct (read_fields_some _ _ _ Hr) as (Hm & Hfn & Hoff & Ha).
  unfold print_frame.
  rewrite Hc, bind_lift_ok, !bind_fputs, Hp, bind_lift_ok.
  apply io_bind_ext.
  - destruct (function f) as [a|]; cbn [c_str_opt] in Hfn.
    + destruct (c_str mem' a) as [name| |]; cbn [res_bind] in Hfn;
        try discriminate.
      inversion Hfn as [Hname]. rewrite bind_lift_ok.
      destruct (demangle_cpp_name name) as [demangled|[]]; [reflexivity|].
      destruct (offset f) as [b|]; cbn [c_str_opt] in Hoff; cbn [arg_s].
      * destruct (c_str mem' b) as [off| |]; cbn [res_bind] in Hoff;
          try discriminate.
        inversion Hoff. rewrite bind_lift_ok. reflexivity.
      * inversion Hoff. reflexivity.
    + inversion Hfn. reflexivity.
  - intros _ w'. rewrite !bind_fputs, Hm, Ha, !bind_lift_ok. reflexivity.
Qed.

Lemma print_frame_rejected (use_addr2line : bool) (i : nat) (symbol_i : text)
    (w : world) :
  is_cstring symbol_i -> parse symbol_i = Ok None ->
  print_frame use_addr2line i symbol_i w =
  Ok (tt, mkWorld (out w ++ dec (i + 1) ++ chars ": " ++ symbol_i ++ [LF])
                  (spawned w)).
Proof.
  intros Hs H. destruct (parse_none _ H) as (mem & Hc & Hp).
  unfold print_frame.
  rewrite Hc, bind_lift_ok, bind_fputs, Hp, bind_lift_ok.
  rewrite c_str_object by exact Hs.
  rewrite bind_lift_ok. unfold fputs. cbn [out spawned].
  rewrite <- !app_assoc. reflexivity.
Qed.

Lemma print_frames_app (use_addr2line : bool) (i : nat) (a b : list text)
    (w : world) :
  print_frames use_addr2line i (a ++ b) w =
  (print_frames use_addr2line i a ;;
   print_frames use_addr2line (i + length a) b) w.
Proof.
  revert i w. induction a as [|x a IH]; intros i w; cbn [print_frames app length].
  - rewrite bind_ret, Nat.add_0_r. reflexivity.
  - rewrite bind_assoc. apply io_bind_ext; [reflexivity|].
    intros _ w'. rewrite IH. rewrite Nat.add_succ_comm. reflexivity.
Qed.

(** ** [run_addr2line] on a fresh 255-byte buffer *)

Lemma chomp_snoc (s : text) (c : ascii) :
  chomp (s ++ [c]) = if Ascii.eqb c LF then s else s ++ [c].
Proof.
  induction s as [|x s IH]; cbn [app chomp].
  - destruct (Ascii.eqb c LF); reflexivity.
  - destruct (s ++ [c]) as [|y r] eqn:E.
    + destruct s; discriminate.
    + rewrite IH. destruct (Ascii.eqb c LF); reflexivity.
Qed.

Lemma skipn_repeat_nul (n k : nat) :
  skipn n (repeat NUL (n + k)) = repeat NUL k.
Proof.
  induction n as [|n IH]; cbn [Nat.add repeat skipn]; [reflexivity | exact IH].
Qed.

Lemma fread_fresh (stream : text) :
  let data := firstn 254 stream in
  fread (repeat NUL 255) (Z.to_nat (255 - 1)) stream =
  Ok (Z.of_nat (length data),
      data ++ NUL :: repeat NUL (254 - length data)).
Proof.
  intro data. unfold fread.
  change (Z.to_nat (255 - 1)) with 254%nat. fold data.
  assert (H : (length data <= 254)%nat) by apply firstn_le_length.
  rewrite repeat_length.
  replace (length data <=? 255)%nat with true
    by (symmetry; apply Nat.leb_le; lia).
  f_equal. f_equal. f_equal.
  replace 255%nat with (length data + S (254 - length data))%nat at 1
    by lia.
  rewrite skipn_repeat_nul. reflexivity.
Qed.

Lemma run_addr2line_no_stream (executable address : text) (w : world) :
  popen_read (snprintf_cmd 255 executable address) = None ->
  run_addr2line executable address (repeat NUL 255) 255 w =
  Ok ((false, repeat NUL 255), after_popen w executable address).
Proof.
  intro H. unfold run_addr2line, io_bind, popen. rewrite H. reflexivity.
Qed.

Lemma run_addr2line_stream (executable address stream : text) (w : world) :
  popen_read (snprintf_cmd 255 executable address) = Some stream ->
  run_addr2line executable address (repeat NUL 255) 255 w =
  (let data := firstn 254 stream in
   let line := data ++ NUL :: repeat NUL (254 - length data) in
   let count := Z.of_nat (length data) in
   if count =? 0 then io_ret (false, line) else
   c <- lift (load line (count - 1)) ;;
   line <- lift (if Ascii.eqb c LF then store line (count - 1) NUL
                 else store line count NUL) ;;
   s <- lift (c_str line 0) ;;
   if text_eqb s (chars "??:0") then io_ret (false, line)
   else io_ret (true, line)) (after_popen w executable address).
Proof.
  intros H. unfold run_addr2line.
  unfold io_bind at 1. unfold popen at 1. rewrite H.
  rewrite fread_fresh. rewrite bind_lift_ok. reflexivity.
Qed.

Lemma run_addr2line_empty (executable address : text) (w : world) :
  popen_read (snprintf_cmd 255 executable address) = Some [] ->
  run_addr2line executable address (repeat NUL 255) 255 w =
  Ok ((false, repeat NUL 255), after_popen w executable address).
Proof.
  intro H. rewrite (run_addr2line_stream _ _ [] w H). reflexivity.
Qed.

Lemma run_addr2line_text (executable address stream : text) (w : world) :
  popen_read (snprintf_cmd 255 executable address) = Some stream ->
  stream <> [] -> (length stream <= 254)%nat -> is_cstring stream ->
  exists line,
    run_addr2line executable address (repeat NUL 255) 255 w =
    Ok ((negb (text_eqb (chomp stream) (chars "??:0")), line),
        after_popen w executable address) /\
    c_str line 0 = Ok (chomp stream).
Proof.
  intros H Hne Hlen Hs.
  rewrite (run_addr2line_stream _ _ stream w H). cbv zeta.
  rewrite firstn_all2 by exact Hlen.
  destruct stream as [|c s _] using rev_ind; [contradiction|].
  apply is_cstring_app in Hs. destruct Hs as [Hs Hc].
  apply is_cstring_cons in Hc. destruct Hc as [Hc _].
  replace (Z.of_nat (length (s ++ [c])) =? 0) with false
    by (symmetry; apply Z.eqb_neq; rewrite length_app; cbn [length]; lia).
  rewrite (load_at _ _ s (NUL :: repeat NUL (254 - length (s ++ [c]))) c);
    [ | layout | position ].
  rewrite bind_lift_ok, chomp_snoc.
  destruct (Ascii.eqb c LF) eqn:Ec.
  - rewrite (store_at _ _ s (NUL :: repeat NUL (254 - length (s ++ [c]))) c);
      [ | layout | position ].
    rewrite bind_lift_ok.
    rewrite (c_str_at _ _ [] s (NUL :: repeat NUL (254 - length (s ++ [c]))));
      [ | layout | position | assumption ].
    rewrite bind_lift_ok.
    eexists. split.
    + destruct (text_eqb s (chars "??:0")); reflexivity.
    + apply (c_str_at _ _ [] s (NUL :: repeat NUL (254 - length (s ++ [c]))));
        [ layout | position | assumption ].
  - rewrite (store_at _ _ (s ++ [c]) (repeat NUL (254 - length (s ++ [c]))) NUL);
      [ | layout | position ].
    rewrite bind_lift_ok.
    assert (Hsc : is_cstring (s ++ [c])).
    { apply is_cstring_app. split; [assumption|].
      apply is_cstring_cons. split; [assumption | intros []]. }
    rewrite (c_str_at _ _ [] (s ++ [c]) (repeat NUL (254 - length (s ++ [c]))));
      [ | layout | position | assumption ].
    rewrite bind_lift_ok.
    eexists. split.
    + destruct (text_eqb (s ++ [c]) (chars "??:0")); reflexivity.
    + apply (c_str_at _ _ [] (s ++ [c]) (repeat NUL (254 - length (s ++ [c]))));
        [ layout | position | assumption ].
Qed.

Lemma until_nul_total (s post : text) (p : ptr) :
  exists t, until_nul (s ++ NUL :: post) p = Ok t.
Proof.
  revert p. induction s as [|x s IH]; intro p; cbn [until_nul app].
  - rewrite ascii_eqb_refl. eexists; reflexivity.
  - destruct (Ascii.eqb x NUL); [eexists; reflexivity|].
    destruct (IH (p + 1)) as [t ->]. eexists; reflexivity.
Qed.

Lemma c_str_total (b : buffer) (p : ptr) (pre s post : text) :
  b = pre ++ s ++ NUL :: post -> p = Z.of_nat (length pre) ->
  exists t, c_str b p = Ok t.
Proof.
  intros -> ->. unfold c_str.
  destruct s as [|x s]; cbn [app]; rewrite in_bounds_mid, skipn_mid.
  - apply (until_nul_total [] post).
  - apply (until_nul_total (x :: s) post).
Qed.

(** Whatever the utility answers, [run_addr2line] returns, and when it
    returns true the buffer holds a string. *)
Lemma run_addr2line_total (executable address : text) (w : world) :
  exists found line,
    run_addr2line executable address (repeat NUL 255) 255 w =
    Ok ((found, line), after_popen w executable address) /\
    exists t, c_str line 0 = Ok t.
Proof.
  assert (Hfresh : exists t, c_str (repeat NUL 255) 0 = Ok t)
    by (eexists; reflexivity).
  destruct (popen_read (snprintf_cmd 255 executable address)) as [stream|] eqn:H.
  2:{ exists false, (repeat NUL 255). split; [|exact Hfresh].
      apply run_addr2line_no_stream. exact H. }
  rewrite (run_addr2line_stream _ _ stream w H). cbv zeta.
  set (data := firstn 254 stream).
  assert (Hlen : (length data <= 254)%nat) by apply firstn_le_length.
  destruct data as [|c d _] using rev_ind.
  { exists false, (repeat NUL 255). split; [reflexivity | exact Hfresh]. }
  replace (Z.of_nat (length (d ++ [c])) =? 0) with false
    by (symmetry; apply Z.eqb_neq; rewrite length_app; cbn [length]; lia).
  rewrite (load_at _ _ d (NUL :: repeat NUL (254 - length (d ++ [c]))) c);
    [ | layout | position ].
  rewrite bind_lift_ok.
  destruct (Ascii.eqb c LF).
  - rewrite (store_at _ _ d (NUL :: repeat NUL (254 - length (d ++ [c]))) c);
      [ | layout | position ].
    rewrite bind_lift_ok.
    destruct (c_str_total (d ++ NUL :: NUL :: repeat NUL (254 - length (d ++ [c])))
                0 [] d (NUL :: repeat NUL (254 - length (d ++ [c]))))
      as [t Ht]; [layout | position |].
    rewrite Ht, bind_lift_ok.
    destruct (text_eqb t (chars "??:0")); do 2 eexists;
      (split; [reflexivity | eexists; exact Ht]).
  - rewrite (store_at _ _ (d ++ [c]) (repeat NUL (254 - length (d ++ [c]))) NUL);
      [ | layout | position ].
    rewrite bind_lift_ok.
    destruct (c_str_total ((d ++ [c]) ++ NUL :: repeat NUL (254 - length (d ++ [c])))
                0 [] (d ++ [c]) (repeat NUL (254 - length (d ++ [c]))))
      as [t Ht]; [layout | position |].
    rewrite Ht, bind_lift_ok.
    destruct (text_eqb t (chars "??:0")); do 2 eexists;
      (split; [reflexivity | eexists; exact Ht]).
Qed.

Lemma symbol_function_offset (line : text) (s : symbol) :
  parse line = Ok (Some s) ->
  (sym_function s = None /\ sym_offset s = None) \/
  (exists fn off, sym_function s = Some fn /\ sym_offset s = Some off).
Proof.
  intro H. destruct (parse_some _ _ H) as (mem & f & mem' & _ & Hp & Hr).
  destruct (read_fields_some _ _ _ Hr) as (_ & Hfn & Hoff & _).
  destruct (function_offset_together _ _ _ Hp)
    as [[E1 E2] | (a & b & E1 & E2)];
    rewrite E1 in Hfn; rewrite E2 in Hoff; cbn [c_str_opt] in Hfn, Hoff.
  - left. split; congruence.
  - right.
    destruct (c_str mem' a) as [fn| |]; cbn [res_bind] in Hfn; try discriminate.
    destruct (c_str mem' b) as [off| |]; cbn [res_bind] in Hoff;
      try discriminate.
    exists fn, off. split; congruence.
Qed.

(** Every frame whose line parses is rendered as
    [<n>: <name> at <location>], whatever the demangler and the
    line-resolution utility do. *)
Lemma print_frame_parsed_line (use_addr2line : bool) (i : nat)
    (symbol_i : text) (s : symbol) (w : world) :
  parse symbol_i = Ok (Some s) ->
  exists name loc cmds,
    print_frame use_addr2line i symbol_i w =
    Ok (tt, mkWorld (out w ++ dec (i + 1) ++ chars ": " ++ name ++
                     chars " at " ++ loc ++ [LF])
                    (spawned w ++ cmds)) /\
    match sym_function s with
    | None => name = chars "?"
    | Some fn =>
        match cxa_demangle fn with
        | Some demangled => name = demangled
        | None =>
            exists off, sym_offset s = Some off /\ name = fn ++ chars "+" ++ off
        end
    end /\
    if use_addr2line
    then cmds = [snprintf_cmd 255 (sym_module s) (sym_address s)]
    else cmds = [] /\
         loc = sym_address s ++ chars " (" ++ sym_module s ++ chars ")".
Proof.
  intro H. rewrite (print_frame_parsed _ _ _ _ _ H). rewrite bind_fputs.
  assert (Hname : exists name,
    forall w0,
      match sym_function s with
      | Some name =>
          match demangle_cpp_name name with
          | inl demangled => fputs demangled
          | inr _ =>
              match sym_offset s with
              | Some off => fputs (name ++ chars "+" ++ off)
              | None => lift Null
              end
          end
      | None => fputs (chars "?")
      end w0 = Ok (tt, mkWorld (out w0 ++ name) (spawned w0)) /\
    match sym_function s with
    | None => name = chars "?"
    | Some fn =>
        match cxa_demangle fn with
        | Some demangled => name = demangled
        | None =>
            exists off, sym_offset s = Some off /\ name = fn ++ chars "+" ++ off
        end
    end).
  { destruct (symbol_function_offset _ _ H) as [[E1 E2] | (fn & off & E1 & E2)];
      rewrite E1; [|rewrite E2].
    - exists (chars "?"). intro w0. split; reflexivity.
    - unfold demangle_cpp_name. destruct (cxa_demangle fn) as [d|].
      + exists d. intro w0. split; reflexivity.
      + exists (fn ++ chars "+" ++ off). intro w0. split; [reflexivity|].
        exists off. split; reflexivity. }
  destruct Hname as (name & Hname).
  exists name.
  unfold io_bind at 1.
  destruct (Hname (mkWorld (out w ++ dec (i + 1) ++ chars ": ") (spawned w)))
    as [-> Hn].
  cbn [out spawned]. rewrite bind_fputs. cbn [out spawned].
  destruct use_addr2line.
  - destruct (run_addr2line_total (sym_module s) (sym_address s)
                (mkWorld (((out w ++ dec (i + 1) ++ chars ": ") ++ name) ++
                          chars " at ") (spawned w)))
      as (found & line & Hrun & t & Ht).
    unfold io_bind at 1. rewrite Hrun. unfold after_popen. cbn [out spawned].
    destruct found.
    + exists t. eexists. split; [|split; [exact Hn | reflexivity]].
      rewrite Ht, bind_assoc, bind_lift_ok, !bind_fputs. unfold fputs.
      cbn [out spawned]. rewrite <- !app_assoc. reflexivity.
    + exists (sym_address s ++ chars " (" ++ sym_module s ++ chars ")").
      eexists. split; [|split; [exact Hn | reflexivity]].
      rewrite !bind_fputs. unfold fputs.
      cbn [out spawned]. rewrite <- !app_assoc. reflexivity.
  - exists (sym_address s ++ chars " (" ++ sym_module s ++ chars ")").
    exists []. split; [|split; [exact Hn | split; reflexivity]].
    rewrite bind_ret, !bind_fputs. unfold fputs. cbn [out spawned].
    rewrite <- !app_assoc, app_nil_r. reflexivity.
Qed.

(** Every frame whose line the parser returns on is written as its line,
    and hands to [popen] the commands of [frame_commands]. *)
Lemma print_frame_line (use_addr2line : bool) (i : nat) (symbol_i : text)
    (w : world) :
  is_cstring symbol_i -> (exists r, parse symbol_i = Ok r) ->
  exists l,
    print_frame use_addr2line i symbol_i w =
    Ok (tt, mkWorld (out w ++ l)
                    (spawned w ++ frame_commands use_addr2line symbol_i)) /\
    frame_line cxa_demangle use_addr2line i symbol_i l.
Proof.
  intros Hs [[s|] H]; unfold frame_line, frame_commands; rewrite H.
  - destruct (print_frame_parsed_line use_addr2line i _ _ w H)
      as (name & loc & cmds & Hrun & Hname & Hcmds).
    exists (dec (i + 1) ++ chars ": " ++ name ++ chars " at " ++ loc ++ [LF]).
    split.
    + rewrite Hrun. destruct use_addr2line.
      * rewrite Hcmds. reflexivity.
      * destruct Hcmds as [-> _]. reflexivity.
    + exists name, loc. split; [reflexivity|]. split; [exact Hname|].
      intros ->. apply Hcmds.
  - exists (dec (i + 1) ++ chars ": " ++ symbol_i ++ [LF]).
    split; [|reflexivity].
    rewrite app_nil_r. apply print_frame_rejected; assumption.
Qed.

(** X4. Whenever the parser returns on every descriptor, accepting it or
    not, the report is written in full: the output grows by one line for
    each descriptor, in their order, each line being the numbered line of
    its frame, and the commands handed to [popen] are those of the parsed
    frames, in their order. *)
Theorem report_always_rendered (use_addr2line : bool) (symbols : list text)
    (w : world) :
  Forall (fun symbol_i =>
            is_cstring symbol_i /\ exists r, parse symbol_i = Ok r) symbols ->
  exists lines,
    print_backtrace (Some symbols) use_addr2line w =
    Ok (tt, mkWorld (out w ++ concat lines)
                    (spawned w ++
                     flat_map (frame_commands use_addr2line) symbols)) /\
    report_lines cxa_demangle use_addr2line 0 symbols lines.
Proof.
  cbn [print_backtrace]. generalize 0%nat as i. intros i H. revert i w.
  induction H as [|x symbols [Hx Hr] _ IH]; intros i w;
    cbn [print_frames flat_map].
  - exists []. cbn [concat report_lines]. rewrite !app_nil_r.
    destruct w. split; reflexivity.
  - destruct (print_frame_line use_addr2line i x w Hx Hr) as (l & H1 & Hl).
    unfold io_bind. rewrite H1.
    destruct (IH (S i) (mkWorld (out w ++ l)
                          (spawned w ++ frame_commands use_addr2line x)))
      as (lines & H2 & Hlines).
    exists (l :: lines). rewrite H2. cbn [out spawned concat report_lines].
    rewrite <- !app_assoc. split; [reflexivity|]. split; assumption.
Qed.

(** ** Actions that start no subprocess *)

Lemma quiet_fputs (s : text) : quiet (fputs s).
Proof. intros w a w' H. inversion H. reflexivity. Qed.

Lemma quiet_ret {A} (a : A) : quiet (io_ret a).
Proof. intros w a' w' H. inversion H. reflexivity. Qed.

Lemma quiet_lift {A} (r : res A) : quiet (lift r).
Proof. intros w a w' H. destruct r; inversion H. reflexivity. Qed.

Lemma quiet_bind {A B} (m : IO A) (k : A -> IO B) :
  quiet m -> (forall a, quiet (k a)) -> quiet (io_bind m k).
Proof.
  intros Hm Hk w b w' H. unfold io_bind in H.
  destruct (m w) as [[a w1]| |] eqn:E; try discriminate.
  rewrite (Hk a _ _ _ H). exact (Hm _ _ _ E).
Qed.

Ltac quiet_step :=
  first
    [ apply quiet_fputs
    | apply quiet_ret
    | apply quiet_lift
    | apply quiet_bind; [ | intro ]
    | match goal with
      | |- quiet (match ?x with _ => _ end) => destruct x
      end ].

Lemma print_frame_quiet (i : nat) (symbol_i : text) :
  quiet (print_frame false i symbol_i).
Proof.
  unfold print_frame, arg_s. repeat quiet_step.
Qed.

Lemma print_frames_quiet (i : nat) (symbols : list text) :
  quiet (print_frames false i symbols).
Proof.
  revert i. induction symbols as [|x symbols IH]; intro i; cbn [print_frames].
  - apply quiet_ret.
  - apply quiet_bind; [apply print_frame_quiet | intros _; apply IH].
Qed.

Lemma print_backtrace_quiet (symbols : option (list text)) :
  quiet (print_backtrace symbols false).
Proof.
  destruct symbols as [symbols|]; cbn [print_backtrace].
  - apply print_frames_quiet.
  - apply quiet_fputs.
Qed.

(** ** The report *)

(** C9. When [backtrace_symbols] returns no descriptor list the report is
    the sentinel line and nothing else: no frame line is written and no
    subprocess is started. *)
Theorem no_symbols_sentinel_only (use_addr2line : bool) (w : world) :
  print_backtrace None use_addr2line w =
  Ok (tt, mkWorld (out w ++ chars "(too little memory for backtrace)" ++ [LF])
                  (spawned w)) /\
  print_backtrace None use_addr2line start =
  Ok (tt, mkWorld (chars "(too little memory for backtrace)" ++ [LF]) []).
Proof. split; reflexivity. Qed.

(** C5. A frame whose raw line is rejected by the parser is written as its
    frame number followed by the raw line verbatim, and the report around
    it is what the frames before and after it produce on their own. *)
Theorem rejected_line_printed_verbatim (use_addr2line : bool)
    (before : list text) (symbol_i : text) (after : list text) (w : world) :
  is_cstring symbol_i ->
  parse symbol_i = Ok None ->
  print_frame use_addr2line (length before) symbol_i w =
  Ok (tt, mkWorld (out w ++ dec (length before + 1) ++ chars ": " ++
                   symbol_i ++ [LF])
                  (spawned w)) /\
  print_backtrace (Some (before ++ symbol_i :: after)) use_addr2line w =
  (print_frames use_addr2line 0 before ;;
   fputs (dec (length before + 1) ++ chars ": " ++ symbol_i ++ [LF]) ;;
   print_frames use_addr2line (S (length before)) after) w.
Proof.
  intros Hs H. split.
  - apply print_frame_rejected; assumption.
  - cbn [print_backtrace]. rewrite print_frames_app.
    apply io_bind_ext; [reflexivity|]. intros _ w1.
    cbn [print_frames Nat.add]. apply io_bind_ext; [|reflexivity].
    rewrite print_frame_rejected by assumption. reflexivity.
Qed.

(** C6. When a parsed frame has a function name that the demangler
    refuses, the frame is still written in full and its display name is the
    mangled name, a plus sign and the offset. *)
Theorem demangle_failure_falls_back (use_addr2line : bool) (i : nat)
    (symbol_i : text) (s : symbol) (fn : text) (w : world) :
  parse symbol_i = Ok (Some s) ->
  sym_function s = Some fn ->
  cxa_demangle fn = None ->
  exists off loc cmds,
    sym_offset s = Some off /\
    print_frame use_addr2line i symbol_i w =
    Ok (tt, mkWorld (out w ++ dec (i + 1) ++ chars ": " ++
                     (fn ++ chars "+" ++ off) ++ chars " at " ++ loc ++ [LF])
                    (spawned w ++ cmds)).
Proof.
  intros H Hfn Hd.
  destruct (print_frame_parsed_line use_addr2line i _ _ w H)
    as (name & loc & cmds & Hrun & Hname & _).
  rewrite Hfn, Hd in Hname. destruct Hname as (off & Hoff & ->).
  exists off, loc, cmds. split; assumption.
Qed.

(** C7. With [use_addr2line] false no run of [print_backtrace] hands a
    command to [popen], and every frame whose line parses gets the location
    [<address> (<module>)]. *)
Theorem disabled_resolution_spawns_nothing :
  (forall (symbols : option (list text)) (w w' : world) (u : unit),
     print_backtrace symbols false w = Ok (u, w') ->
     spawned w' = spawned w) /\
  (forall (i : nat) (symbol_i : text) (s : symbol) (w : world),
     parse symbol_i = Ok (Some s) ->
     exists name,
       print_frame false i symbol_i w =
       Ok (tt, mkWorld (out w ++ dec (i + 1) ++ chars ": " ++ name ++
                        chars " at " ++
                        (sym_address s ++ chars " (" ++ sym_module s ++
                         chars ")") ++ [LF])
                       (spawned w))).
Proof.
  split.
  - intros symbols w w' u H. exact (print_backtrace_quiet symbols _ _ _ H).
  - intros i symbol_i s w H.
    destruct (print_frame_parsed_line false i _ _ w H)
      as (name & loc & cmds & Hrun & _ & -> & ->).
    exists name. rewrite Hrun, app_nil_r. reflexivity.
Qed.

Lemma chomp_marker (stream t : text) :
  chomp stream = t -> t <> [] -> stream = t \/ stream = t ++ [LF].
Proof.
  intros H Ht. destruct stream as [|c s _] using rev_ind.
  - cbn in H. congruence.
  - rewrite chomp_snoc in H. destruct (Ascii.eqb c LF) eqn:Ec.
    + apply Ascii.eqb_eq in Ec. subst. right. reflexivity.
    + left. exact H.
Qed.

(** C8. The outcomes of [run_addr2line] on the fresh buffer
    [print_backtrace] gives it: false when the stream cannot be opened,
    when nothing is read, and when what is read is the marker [??:0] with
    or without a line terminator; otherwise true, the buffer holding the
    output without one trailing line terminator.  The last case is for an
    output that fits the 254 characters read and holds no NUL. *)
Theorem run_addr2line_outcomes (executable address : text) (w : world) :
  let cmd := snprintf_cmd 255 executable address in
  let result := run_addr2line executable address (repeat NUL 255) 255 w in
  let w' := mkWorld (out w) (spawned w ++ [cmd]) in
  (popen_read cmd = None ->
   exists line, result = Ok ((false, line), w')) /\
  (popen_read cmd = Some [] ->
   exists line, result = Ok ((false, line), w')) /\
  (forall stream,
     popen_read cmd = Some stream ->
     chomp stream = chars "??:0" ->
     exists line, result = Ok ((false, line), w')) /\
  (forall stream,
     popen_read cmd = Some stream ->
     stream <> [] ->
     chomp stream <> chars "??:0" ->
     (length stream <= 254)%nat ->
     is_cstring stream ->
     exists line,
       result = Ok ((true, line), w') /\ c_str line 0 = Ok (chomp stream)).
Proof using popen_read.
  clear cxa_demangle. cbv zeta. repeat split.
  - intro H. eexists. apply run_addr2line_no_stream. exact H.
  - intro H. eexists. apply run_addr2line_empty. exact H.
  - intros stream H Hm.
    assert (Hs : stream <> [] /\ (length stream <= 254)%nat /\ is_cstring stream).
    { destruct (chomp_marker _ _ Hm) as [-> | ->]; [discriminate | |];
        (split; [discriminate|]); (split; [cbn; lia|]);
        unfold is_cstring; cbn; intuition discriminate. }
    destruct Hs as (Hne & Hlen & Hc).
    destruct (run_addr2line_text _ _ _ w H Hne Hlen Hc) as (line & Hrun & _).
    rewrite Hm in Hrun. exists line. exact Hrun.
  - intros stream H Hne Hm Hlen Hc.
    destruct (run_addr2line_text _ _ _ w H Hne Hlen Hc) as (line & Hrun & Hl).
    rewrite (text_eqb_neq _ _ Hm) in Hrun. exists line. split; assumption.
Qed.

(** C1. The line [./prog(_Z3fooi+0x10) [0x4005a0]] parses into its four
    fields; given that the demangler turns [_Z3fooi] into [foo(int)], a
    report of that one frame without source-location resolution is the line
    [1: foo(int) at 0x4005a0 (./prog)]. *)
Theorem scenario_foo_int :
  cxa_demangle (chars "_Z3fooi") = Some (chars "foo(int)") ->
  parse (chars "./prog(_Z3fooi+0x10) [0x4005a0]") =
  Ok (Some (mkSymbol (chars "./prog") (Some (chars "_Z3fooi"))
                     (Some (chars "0x10")) (chars "0x4005a0"))) /\
  demangle_cpp_name (chars "_Z3fooi") = inl (chars "foo(int)") /\
  print_backtrace (Some [chars "./prog(_Z3fooi+0x10) [0x4005a0]"]) false start =
  Ok (tt, mkWorld (chars "1: foo(int) at 0x4005a0 (./prog)" ++ [LF]) []).
Proof.
  intro Hd.
  assert (Hp : parse (chars "./prog(_Z3fooi+0x10) [0x4005a0]") =
               Ok (Some (mkSymbol (chars "./prog") (Some (chars "_Z3fooi"))
                                  (Some (chars "0x10")) (chars "0x4005a0"))))
    by (vm_compute; reflexivity).
  split; [exact Hp|]. split.
  - unfold demangle_cpp_name. rewrite Hd. reflexivity.
  - cbn [print_backtrace print_frames].
    unfold io_bind at 1. rewrite (print_frame_parsed _ _ _ _ _ Hp).
    cbn [sym_function sym_offset sym_module sym_address].
    unfold demangle_cpp_name. rewrite Hd. reflexivity.
Qed.

End Report.

(** ** The parser *)

(** Where the round trip holds. A line put together as
    [module(function+offset) [address]] from four C strings, where the
    module holds no parenthesis, the function no plus sign and no closing
    parenthesis, the offset no closing parenthesis and the address no
    closing bracket, is accepted; the four fields read back are the four
    parts, and putting them together again gives the line. *)
Theorem shape_a_round_trip (m f o a : text) :
  is_cstring m -> is_cstring f -> is_cstring o -> is_cstring a ->
  ~ In "(" m -> ~ In ")" m -> ~ In "+" f -> ~ In ")" f ->
  ~ In ")" o -> ~ In "]" a ->
  exists s,
    parse (shape_a m f o a) = Ok (Some s) /\
    sym_module s = m /\ sym_function s = Some f /\
    sym_offset s = Some o /\ sym_address s = a /\
    reassemble s = shape_a m f o a.
Proof.
  intros. exists (mkSymbol m (Some f) (Some o) a).
  split; [apply parse_shape_a; assumption|].
  repeat split.
Qed.

(** C3, as the code has it. An accepted line without an opening
    parenthesis has neither function nor offset, and is its module, a
    blank, and its address in brackets; the address may be empty. *)
Theorem shape_b_no_function (line : text) (s : symbol) :
  is_cstring line -> ~ In "(" line -> parse line = Ok (Some s) ->
  sym_function s = None /\ sym_offset s = None /\
  line = shape_b (sym_module s) (sym_address s).
Proof.
  intros Hl Hp H.
  destruct (parse_shape_b_inv _ _ Hl Hp H) as (m & a & Hline & ->).
  cbn [sym_function sym_offset sym_module sym_address]. auto.
Qed.

(** C3 as stated fails: [a []] has no parenthesis and is accepted with an
    empty address. *)
Lemma shape_b_empty_address :
  ~ (forall (line : text) (s : symbol),
       ~ In "(" line -> parse line = Ok (Some s) ->
       sym_function s = None /\ sym_offset s = None /\ sym_address s <> []).
Proof.
  intro H.
  destruct (H (chars "a []") (mkSymbol (chars "a") None None []))
    as (_ & _ & Hne).
  - cbn. intuition discriminate.
  - vm_compute. reflexivity.
  - apply Hne. reflexivity.
Qed.

(** C2 on the code. The line [/opt/a)b/prog(_Z3fooi+0x10) [0x4005a0]] is
    of the first shape, its module [/opt/a)b/prog] being the text before
    the first opening parenthesis, and it is rejected: no field is
    extracted, so nothing is there to put together again. The closing
    parenthesis is searched from the start of the line and found in the
    module. *)
Theorem shape_a_closing_parenthesis_in_module :
  chars "/opt/a)b/prog(_Z3fooi+0x10) [0x4005a0]" =
  shape_a (chars "/opt/a)b/prog") (chars "_Z3fooi") (chars "0x10")
    (chars "0x4005a0") /\
  ~ In "(" (chars "/opt/a)b/prog") /\
  parse (chars "/opt/a)b/prog(_Z3fooi+0x10) [0x4005a0]") = Ok None /\
  parse_backtrace_line
    (c_object (chars "/opt/a)b/prog(_Z3fooi+0x10) [0x4005a0]")) = Ok None.
Proof.
  split; [reflexivity|]. split; [concrete|]. split; vm_compute; reflexivity.
Qed.

(** C4 on the code. The line [a) [x](+] does not end in a closing bracket
    and is accepted: the first closing parenthesis comes before the opening
    one, so the terminator written over the opening parenthesis is what
    follows the closing bracket. *)
Theorem unterminated_line_accepted :
  last (chars "a) [x](+") NUL = "+" /\
  parse (chars "a) [x](+") =
  Ok (Some (mkSymbol (chars "a") (Some []) (Some []) (chars "x"))).
Proof. split; vm_compute; reflexivity. Qed.

(** C10 on the code. For [[0x4005a0]] the opening bracket is the first
    character, and the character before it, at offset -1, is read. *)
Theorem leading_bracket_read_before_buffer :
  parse_backtrace_line (c_object (chars "[0x4005a0]")) = Oob (-1).
Proof. vm_compute. reflexivity. Qed.

(** The same for every line that starts with an opening bracket and has
    no opening parenthesis. *)
Lemma leading_bracket_out_of_bounds (rest : text) :
  is_cstring rest -> ~ In "(" rest ->
  parse_backtrace_line (c_object ("[" :: rest)) = Oob (-1).
Proof.
  intros Hr Hp. unfold parse_backtrace_line.
  rewrite (strchr_none_at _ _ "(" [] ("[" :: rest) []);
    [ | layout | position | | discriminate ].
  2:{ apply passes_cons; [discriminate..|]. apply passes_intro; assumption. }
  cbn [res_bind].
  rewrite (strchr_at _ _ "[" [] [] (rest ++ [NUL]));
    [ | layout | position | constructor ].
  cbn [res_bind]. rewrite load_out by (cbn; lia). reflexivity.
Qed.

(** Scenarios 2 and 3 of the specification, and the lines that show where
    the parser departs from the two shapes. *)

Example scenario_no_symbol :
  parse (chars "./prog [0x4005a0]") =
  Ok (Some (mkSymbol (chars "./prog") None None (chars "0x4005a0"))) /\
  print_backtrace Itanium.demangle addr2line_demo
    (Some [chars "./prog [0x4005a0]"]) false start =
  Ok (tt, mkWorld (chars "1: ? at 0x4005a0 (./prog)" ++ [LF]) []).
Proof. split; vm_compute; reflexivity. Qed.

Example scenario_garbage :
  parse (chars "garbage") = Ok None /\
  print_backtrace Itanium.demangle addr2line_demo
    (Some [chars "garbage"]) false start =
  Ok (tt, mkWorld (chars "1: garbage" ++ [LF]) []).
Proof. split; vm_compute; reflexivity. Qed.

Example scenario_resolved_location :
  print_backtrace Itanium.demangle addr2line_demo
    (Some [chars "./prog(_Z3fooi+0x10) [0x4005a0]";
           chars "./prog(main+0x2a) [0x4005a1]"]) true start =
  Ok (tt, mkWorld (chars "1: foo(int) at prog.cc:7" ++ [LF] ++
                   chars "2: main+0x2a at 0x4005a1 (./prog)" ++ [LF])
                  [chars "addr2line -s -e ./prog 0x4005a0";
                   chars "addr2line -s -e ./prog 0x4005a1"]).
Proof. vm_compute. reflexivity. Qed.

Example closing_parenthesis_in_module_rejected :
  parse (shape_a (chars "/usr/lib/a)") (chars "f") (chars "0x1")
           (chars "0x2")) = Ok None.
Proof.
  apply (parse_closed_in_module (chars "/usr/lib/a") []); concrete.
Qed.

(** ** Concrete runs *)

Lemma scenario_foo_int_witness :
  Itanium.demangle (chars "_Z3fooi") = Some (chars "foo(int)") /\
  print_backtrace Itanium.demangle addr2line_demo
    (Some [chars "./prog(_Z3fooi+0x10) [0x4005a0]"]) false start =
  Ok (tt, mkWorld (chars "1: foo(int) at 0x4005a0 (./prog)" ++ [LF]) []).
Proof.
  split; [vm_compute; reflexivity|].
  apply (scenario_foo_int Itanium.demangle addr2line_demo).
  vm_compute. reflexivity.
Defined.

Lemma shape_a_round_trip_witness :
  exists s,
    parse (shape_a (chars "./prog") (chars "_Z3fooi") (chars "0x10")
             (chars "0x4005a0")) = Ok (Some s) /\
    sym_module s = chars "./prog" /\
    sym_function s = Some (chars "_Z3fooi") /\
    sym_offset s = Some (chars "0x10") /\
    sym_address s = chars "0x4005a0" /\
    reassemble s = chars "./prog(_Z3fooi+0x10) [0x4005a0]".
Proof.
  apply (shape_a_round_trip (chars "./prog") (chars "_Z3fooi") (chars "0x10")
           (chars "0x4005a0")); concrete.
Defined.

Lemma shape_b_no_function_witness :
  is_cstring (chars "./prog [0x4005a0]") /\
  ~ In "(" (chars "./prog [0x4005a0]") /\
  chars "./prog [0x4005a0]" = shape_b (chars "./prog") (chars "0x4005a0").
Proof.
  split; [concrete|]. split; [concrete|].
  apply (shape_b_no_function (chars "./prog [0x4005a0]")
           (mkSymbol (chars "./prog") None None (chars "0x4005a0")));
    concrete.
Defined.

Lemma rejected_line_printed_verbatim_witness :
  parse (chars "garbage") = Ok None /\
  print_backtrace Itanium.demangle addr2line_demo
    (Some ([chars "./prog [0x4005a0]"] ++ chars "garbage" ::
           [chars "./prog(_Z3fooi+0x10) [0x4005a0]"])) false start =
  Ok (tt, mkWorld (chars "1: ? at 0x4005a0 (./prog)" ++ [LF] ++
                   chars "2: garbage" ++ [LF] ++
                   chars "3: foo(int) at 0x4005a0 (./prog)" ++ [LF]) []).
Proof.
  split; [concrete|].
  rewrite (proj2 (rejected_line_printed_verbatim Itanium.demangle
                    addr2line_demo false [chars "./prog [0x4005a0]"]
                    (chars "garbage")
                    [chars "./prog(_Z3fooi+0x10) [0x4005a0]"] start
                    ltac:(concrete) ltac:(concrete))).
  vm_compute. reflexivity.
Defined.

Lemma demangle_failure_falls_back_witness :
  Itanium.demangle (chars "main") = None /\
  exists off loc cmds,
    Some (chars "0x10") = Some off /\
    print_frame Itanium.demangle addr2line_demo true 3
      (chars "./prog(main+0x10) [0x4005a1]") start =
    Ok (tt, mkWorld (out start ++ dec (3 + 1) ++ chars ": " ++
                     (chars "main" ++ chars "+" ++ off) ++ chars " at " ++
                     loc ++ [LF])
                    (spawned start ++ cmds)).
Proof.
  split; [concrete|].
  apply (demangle_failure_falls_back Itanium.demangle addr2line_demo true 3
           (chars "./prog(main+0x10) [0x4005a1]")
           (mkSymbol (chars "./prog") (Some (chars "main"))
                     (Some (chars "0x10")) (chars "0x4005a1"))
           (chars "main") start); concrete.
Defined.

Lemma disabled_resolution_spawns_nothing_witness :
  exists name,
    print_frame Itanium.demangle addr2line_demo false 0
      (chars "./prog [0x4005a0]") start =
    Ok (tt, mkWorld (out start ++ dec (0 + 1) ++ chars ": " ++ name ++
                     chars " at " ++
                     (chars "0x4005a0" ++ chars " (" ++ chars "./prog" ++
                      chars ")") ++ [LF])
                    (spawned start)).
Proof.
  apply (proj2 (disabled_resolution_spawns_nothing Itanium.demangle
                  addr2line_demo) 0%nat (chars "./prog [0x4005a0]")
           (mkSymbol (chars "./prog") None None (chars "0x4005a0")) start).
  concrete.
Defined.

Lemma run_addr2line_outcomes_witness :
  exists line,
    run_addr2line addr2line_demo (chars "./prog") (chars "0x4005a0")
      (repeat NUL 255) 255 start =
    Ok ((true, line),
        mkWorld [] [chars "addr2line -s -e ./prog 0x4005a0"]) /\
    c_str line 0 = Ok (chars "prog.cc:7").
Proof.
  apply (proj2 (proj2 (proj2
           (run_addr2line_outcomes addr2line_demo (chars "./prog")
              (chars "0x4005a0") start)))
           (chars "prog.cc:7" ++ [LF])); try concrete.
  vm_compute. lia.
Defined.

(** * The other utilities: properties *)

(** ** [repli_max] *)

Ltac words :=
  unfold to_int32, to_uint32, to_int64, to_uint64 in *;
  change (2 ^ 32) with 4294967296 in *;
  change (2 ^ 31) with 2147483648 in *;
  change (2 ^ 64) with 18446744073709551616 in *;
  change (2 ^ 63) with 9223372036854775808 in *.

Lemma int32_negative (z : Z) :
  (to_int32 (to_uint32 z) <? 0) = (2 ^ 31 <=? z mod 2 ^ 32).
Proof.
  unfold to_int32, to_uint32. rewrite Z.mod_mod by (words; lia).
  words.
  destruct (Z.ltb_spec (z mod 4294967296) 2147483648);
    destruct (Z.leb_spec 2147483648 (z mod 4294967296)); try lia.
  - apply Z.ltb_ge. apply Z.mod_pos_bound. lia.
  - apply Z.ltb_lt.
    assert (z mod 4294967296 < 4294967296) by (apply Z.mod_pos_bound; lia).
    lia.
Qed.

Lemma repli_max_circular (x y : repli_timestamp_t) :
  repli_max x y = if 2 ^ 31 <=? (time x - time y) mod 2 ^ 32 then y else x.
Proof. unfold repli_max. rewrite int32_negative. reflexivity. Qed.

Ltac circular :=
  rewrite ?repli_max_circular; cbn [time]; words;
  repeat match goal with
         | |- context [?a <=? ?b] => destruct (Z.leb_spec a b)
         end;
  try reflexivity; try (exfalso; Z.div_mod_to_equations; lia);
  try (Z.div_mod_to_equations; lia).

(** X15. Two timestamps less than 2^31 apart compare as numbers: [repli_max]
    returns the larger one. *)
Theorem repli_max_close (x y : repli_timestamp_t) :
  0 <= time x < 2 ^ 32 -> 0 <= time y < 2 ^ 32 ->
  Z.abs (time x - time y) < 2 ^ 31 ->
  time (repli_max x y) = Z.max (time x) (time y).
Proof. intros Hx Hy Hd. circular. Qed.

(** X16. The comparison is circular: a timestamp up to 2^31 - 1 ticks ahead of
    another is the maximum of the two in either order, also when the
    counter has wrapped in between. *)
Theorem repli_max_ahead (x : repli_timestamp_t) (d : Z) :
  0 <= time x < 2 ^ 32 -> 0 < d < 2 ^ 31 ->
  let y := mk_repli_timestamp (to_uint32 (time x + d)) in
  repli_max x y = y /\ repli_max y x = y.
Proof. intros Hx Hd y. unfold y. split; circular. Qed.

(** X17. Exactly 2^31 ticks apart the order of the arguments decides: the
    second one is returned either way. *)
Theorem repli_max_opposite (x y : repli_timestamp_t) :
  0 <= time x < 2 ^ 32 -> 0 <= time y < 2 ^ 32 ->
  Z.abs (time x - time y) = 2 ^ 31 ->
  repli_max x y = y /\ repli_max y x = x.
Proof. intros Hx Hy Hd. split; circular. Qed.

(** X18. [invalid] loses against every timestamp below 2^31 (below 2^31 - 1 as
    the second argument) and wins against every other one. *)
Theorem repli_max_invalid (t : repli_timestamp_t) :
  0 <= time t < 2 ^ 32 ->
  repli_max repli_invalid t = (if time t <? 2 ^ 31 then t else repli_invalid) /\
  repli_max t repli_invalid = (if time t <? 2 ^ 31 - 1 then t else repli_invalid).
Proof.
  destruct t as [t]. cbn [time]. intro Ht. unfold repli_invalid.
  rewrite !repli_max_circular. cbn [time]. words.
  change ((-1) mod 4294967296) with 4294967295.
  split.
  - destruct (Z.leb_spec 2147483648 ((4294967295 - t) mod 4294967296));
      destruct (Z.ltb_spec t 2147483648); try reflexivity;
      exfalso; Z.div_mod_to_equations; lia.
  - destruct (Z.leb_spec 2147483648 ((t - 4294967295) mod 4294967296));
      destruct (Z.ltb_spec t (2147483648 - 1)); try reflexivity;
      try (exfalso; Z.div_mod_to_equations; lia).
    f_equal. Z.div_mod_to_equations. lia.
Qed.

(** X25. [distant_past] loses against every timestamp from 1 to 2^31 and wins
    against every later one. *)
Theorem repli_max_distant_past (t : repli_timestamp_t) :
  0 <= time t < 2 ^ 32 ->
  time (repli_max repli_distant_past t) =
  (if time t <=? 2 ^ 31 then time t else 0).
Proof.
  destruct t as [t]. cbn [time]. intro Ht. unfold repli_distant_past.
  rewrite !repli_max_circular. cbn [time]. words.
  destruct (Z.leb_spec 2147483648 ((0 - t) mod 4294967296));
    destruct (Z.leb_spec t 2147483648); cbn [time]; try reflexivity;
    Z.div_mod_to_equations; lia.
Qed.

(** ** [gcd] *)

(** X19. On the arguments its assertions allow, [gcd] is the greatest common
    divisor; in particular [gcd x 0 = x] and [gcd 0 0 = 0]. *)
Theorem gcd_is_gcd (x y : Z) :
  0 <= x -> 0 <= y -> gcd x y = Some (Z.gcd x y).
Proof.
  funelim (gcd x y); intros Hx Hy.
  - subst. rewrite Z.gcd_0_r, Z.abs_eq by assumption. reflexivity.
  - apply andb_prop in Heq as [E _]. apply Z.eqb_eq in E.
    unfold INT_MIN in E. lia.
  - match goal with IH : _ -> _ -> gcd _ _ = _ |- _ => rewrite IH end.
    + rewrite Z.gcd_comm, Z.gcd_rem by assumption.
      rewrite Z.gcd_comm. reflexivity.
    + exact Hy.
    + apply Z.rem_nonneg; assumption.
Qed.

(** X20. Release builds drop the assertions. On [int] arguments of either
    sign the loop executes [INT_MIN % -1] exactly for the pairs
    [(INT_MIN, -1)] and [(-1, INT_MIN)]; for every other pair it returns an
    [int] that is the greatest common divisor up to its sign. *)
Theorem gcd_up_to_sign (x y : Z) :
  INT_MIN <= x <= INT_MAX -> INT_MIN <= y <= INT_MAX ->
  if ((x =? INT_MIN) && (y =? -1)) || ((x =? -1) && (y =? INT_MIN))
  then gcd x y = None
  else exists r,
         gcd x y = Some r /\ INT_MIN <= r <= INT_MAX /\ Z.abs r = Z.gcd x y.
Proof.
  funelim (gcd x y); intros Hx Hy.
  - subst y.
    replace ((x =? INT_MIN) && (0 =? -1)) with false
      by (rewrite andb_comm; reflexivity).
    replace ((x =? -1) && (0 =? INT_MIN)) with false
      by (rewrite andb_comm; reflexivity).
    cbn [orb]. exists x. rewrite Z.gcd_0_r. auto.
  - rewrite Heq. reflexivity.
  - rewrite Heq. cbn [orb].
    assert (Hr : INT_MIN <= Z.rem x y <= INT_MAX).
    { assert (H0 := Z.rem_bound_abs x y n). unfold INT_MIN, INT_MAX in *. lia. }
    match goal with IH : _ -> _ -> if _ then _ else _ |- _ =>
      specialize (IH Hy Hr) end.
    assert (Hg : Z.gcd y (Z.rem x y) = Z.gcd x y).
    { rewrite Z.gcd_comm, Z.gcd_rem by assumption. apply Z.gcd_comm. }
    rewrite Hg in *.
    assert (Hsame : (y =? INT_MIN) && (Z.rem x y =? -1) ||
                    (y =? -1) && (Z.rem x y =? INT_MIN) =
                    (x =? -1) && (y =? INT_MIN)).
    { unfold INT_MIN, INT_MAX in *.
      change (- 2 ^ 31) with (-2147483648) in *.
      change (2 ^ 31 - 1) with 2147483647 in *.
      destruct (Z.eqb_spec y (-2147483648)), (Z.eqb_spec y (-1)),
        (Z.eqb_spec (Z.rem x y) (-1)), (Z.eqb_spec (Z.rem x y) (-2147483648)),
        (Z.eqb_spec x (-1));
        cbn [andb orb]; try reflexivity; exfalso; try subst y;
        try discriminate; Z.to_euclidean_division_equations; lia. }
    rewrite Hsame in H. exact H.
Qed.

Example gcd_negative : gcd 4 (-6) = Some (-2).
Proof. reflexivity. Qed.

Example gcd_division_overflow :
  gcd INT_MIN (-1) = None /\ gcd (-1) INT_MIN = None.
Proof. split; reflexivity. Qed.

(** ** [sized_strcmp] and blobs *)

Lemma uchar_inj (x y : ascii) : uchar x = uchar y -> x = y.
Proof.
  unfold uchar. intro H. apply Nat2Z.inj in H.
  rewrite <- (ascii_nat_embedding x), <- (ascii_nat_embedding y), H.
  reflexivity.
Qed.

Lemma span_start (b : buffer) (n : Z) :
  0 <= n <= Z.of_nat (length b) -> span b 0 n = Ok (firstn (Z.to_nat n) b).
Proof.
  intro H. unfold span.
  replace ((0 <=? n) && (0 <=? 0) && (0 + n <=? Z.of_nat (length b)))
    with true.
  - reflexivity.
  - symmetry. rewrite !andb_true_iff, !Z.leb_le. lia.
Qed.

Lemma first_difference_order (a b : list ascii) :
  let m := Nat.min (length a) (length b) in
  let d := first_difference (firstn m a) (firstn m b) in
  ((if d =? 0 then Z.of_nat (length a) - Z.of_nat (length b) else d) ?= 0) =
  lex_compare a b.
Proof.
  revert b. induction a as [|x a IH]; intros [|y b]; cbn -[Z.of_nat];
    try reflexivity.
  - destruct (Ascii.eqb_spec x y) as [-> | Hne].
    + rewrite Z.compare_refl.
      replace (Z.of_nat (S (length a)) - Z.of_nat (S (length b)))
        with (Z.of_nat (length a) - Z.of_nat (length b)) by lia.
      apply IH.
    + assert (Hu : uchar x <> uchar y)
        by (intro E; apply Hne, uchar_inj, E).
      destruct (Z.eqb_spec (uchar x - uchar y) 0) as [E | E]; [lia|].
      destruct (Z.compare_spec (uchar x) (uchar y));
        [lia | apply Z.compare_lt_iff; lia | apply Z.compare_gt_iff; lia].
Qed.

Lemma sized_strcmp_value (str1 str2 : buffer) (len1 len2 : Z) :
  0 <= len1 <= Z.of_nat (length str1) ->
  0 <= len2 <= Z.of_nat (length str2) ->
  sized_strcmp str1 len1 str2 len2 =
  Ok (let a := firstn (Z.to_nat len1) str1 in
      let b := firstn (Z.to_nat len2) str2 in
      let m := Nat.min (length a) (length b) in
      let d := first_difference (firstn m a) (firstn m b) in
      if d =? 0 then Z.of_nat (length a) - Z.of_nat (length b) else d).
Proof.
  intros H1 H2. unfold sized_strcmp, memcmp.
  rewrite !span_start by lia. cbn [res_bind]. cbv zeta.
  rewrite !length_firstn.
  replace (Nat.min (Z.to_nat len1) (length str1)) with (Z.to_nat len1) by lia.
  replace (Nat.min (Z.to_nat len2) (length str2)) with (Z.to_nat len2) by lia.
  rewrite !firstn_firstn.
  replace (Nat.min (Nat.min (Z.to_nat len1) (Z.to_nat len2)) (Z.to_nat len1))
    with (Z.to_nat (Z.min len1 len2)) by lia.
  replace (Nat.min (Nat.min (Z.to_nat len1) (Z.to_nat len2)) (Z.to_nat len2))
    with (Z.to_nat (Z.min len1 len2)) by lia.
  destruct (first_difference _ _ =? 0); f_equal; lia.
Qed.

(** X6. [sized_strcmp] orders the two sized strings as byte strings: its
    result is negative, zero or positive as the first [len1] characters of
    [str1] come before, are, or come after the first [len2] of [str2]. *)
Theorem sized_strcmp_lexicographic (str1 str2 : buffer) (len1 len2 : Z) :
  0 <= len1 <= Z.of_nat (length str1) ->
  0 <= len2 <= Z.of_nat (length str2) ->
  exists r,
    sized_strcmp str1 len1 str2 len2 = Ok r /\
    (r ?= 0) = lex_compare (firstn (Z.to_nat len1) str1)
                           (firstn (Z.to_nat len2) str2).
Proof.
  intros H1 H2. eexists. split.
  - apply sized_strcmp_value; assumption.
  - apply first_difference_order.
Qed.

Lemma lex_compare_eq (a b : list ascii) : lex_compare a b = Eq <-> a = b.
Proof.
  revert b. induction a as [|x a IH]; intros [|y b]; cbn [lex_compare];
    try (split; [discriminate | discriminate]); try tauto.
  destruct (Z.compare_spec (uchar x) (uchar y)) as [E | E | E].
  - apply uchar_inj in E. subst y. rewrite IH.
    split; [intros ->; reflexivity | intro H; inversion H; reflexivity].
  - split; [discriminate | intro H; inversion H; subst; lia].
  - split; [discriminate | intro H; inversion H; subst; lia].
Qed.

Lemma lex_compare_antisym (a b : list ascii) :
  lex_compare b a = CompOpp (lex_compare a b).
Proof.
  revert b. induction a as [|x a IH]; intros [|y b]; cbn [lex_compare];
    try reflexivity.
  rewrite (Z.compare_antisym (uchar x) (uchar y)).
  destruct (uchar x ?= uchar y); cbn [CompOpp]; [apply IH | reflexivity..].
Qed.

(** X7. [sized_strcmp] returns zero exactly when the two sized strings have the
    same length and the same characters. *)
Theorem sized_strcmp_zero_iff_equal (str1 str2 : buffer) (len1 len2 : Z) :
  0 <= len1 <= Z.of_nat (length str1) ->
  0 <= len2 <= Z.of_nat (length str2) ->
  sized_strcmp str1 len1 str2 len2 = Ok 0 <->
  firstn (Z.to_nat len1) str1 = firstn (Z.to_nat len2) str2.
Proof.
  intros H1 H2. rewrite sized_strcmp_value by assumption.
  assert (A := first_difference_order (firstn (Z.to_nat len1) str1)
                 (firstn (Z.to_nat len2) str2)).
  cbv zeta in A |- *. rewrite <- lex_compare_eq, <- A.
  match goal with |- Ok ?v = Ok 0 <-> _ => generalize v end.
  intro v. split.
  - intro H. inversion H. reflexivity.
  - intro H. apply Z.compare_eq in H. rewrite H. reflexivity.
Qed.

(** X8. Swapping the two sized strings swaps the sign of [sized_strcmp]. *)
Theorem sized_strcmp_swap (str1 str2 : buffer) (len1 len2 : Z) :
  0 <= len1 <= Z.of_nat (length str1) ->
  0 <= len2 <= Z.of_nat (length str2) ->
  exists r r',
    sized_strcmp str1 len1 str2 len2 = Ok r /\
    sized_strcmp str2 len2 str1 len1 = Ok r' /\
    Z.sgn r' = - Z.sgn r.
Proof.
  intros H1 H2. do 2 eexists.
  split; [apply sized_strcmp_value; assumption|].
  split; [apply sized_strcmp_value; assumption|].
  cbv zeta.
  assert (A := first_difference_order (firstn (Z.to_nat len1) str1)
                 (firstn (Z.to_nat len2) str2)).
  assert (B := first_difference_order (firstn (Z.to_nat len2) str2)
                 (firstn (Z.to_nat len1) str1)).
  cbv zeta in A, B. rewrite lex_compare_antisym, <- A in B.
  revert B.
  match goal with
  | |- (?u ?= 0) = CompOpp (?v ?= 0) -> _ => generalize u, v
  end.
  intros u v B.
  destruct (Z.compare_spec u 0); destruct (Z.compare_spec v 0);
    cbn [CompOpp] in B; try discriminate; lia.
Qed.

Lemma first_difference_zero (s t : list ascii) :
  length s = length t -> (first_difference s t = 0 <-> s = t).
Proof.
  revert t. induction s as [|x s IH]; intros [|y t] H; cbn [length] in H;
    try discriminate; cbn [first_difference].
  - tauto.
  - destruct (Ascii.eqb_spec x y) as [-> | Hne].
    + rewrite IH by lia.
      split; [intros ->; reflexivity | intro E; inversion E; reflexivity].
    + split.
      * intro E. exfalso. apply Hne, uchar_inj. lia.
      * intro E. inversion E. contradiction.
Qed.

(** X9. [operator==] on blobs returns, whatever the two blobs are, and is true
    exactly when they hold the same bytes; [operator!=] is its negation. *)
Theorem blob_eq_decides (left right : binary_blob_t) :
  exists b,
    blob_eq left right = Ok b /\ (b = true <-> left = right) /\
    blob_neq left right = Ok (negb b).
Proof.
  assert (H : exists b, blob_eq left right = Ok b /\ (b = true <-> left = right)).
  { unfold blob_eq.
    destruct (Z.eqb_spec (Z.of_nat (length left)) (Z.of_nat (length right)))
      as [E | E].
    - apply Nat2Z.inj in E. unfold memcmp.
      rewrite !span_start by lia. cbn [res_bind].
      rewrite Nat2Z.id, firstn_all. rewrite E, firstn_all.
      eexists. split; [reflexivity|].
      rewrite Z.eqb_eq. apply first_difference_zero. exact E.
    - exists false. split; [reflexivity|].
      split; [discriminate | intros ->; contradiction]. }
  destruct H as (b & H & Hb). exists b. repeat split; try apply Hb; try exact H.
  unfold blob_neq. rewrite H. reflexivity.
Qed.

(** ** Precise time *)

(** X13. With both clock values normalised, the uptime is normalised too and is
    the time between them. *)
Theorem get_uptime_normalised (BILLION : Z) (d : time_sync) (now : timespec)
    (now_low_res : Z) :
  BILLION = 1000000000 ->
  0 <= tv_nsec (hi_res_clock d) < BILLION ->
  0 <= tv_nsec now < BILLION ->
  let up := get_uptime BILLION d 0 now now_low_res in
  0 <= tv_nsec up < BILLION /\
  tv_sec up * BILLION + tv_nsec up =
  (tv_sec now * BILLION + tv_nsec now) -
  (tv_sec (hi_res_clock d) * BILLION + tv_nsec (hi_res_clock d)).
Proof.
  intros -> Hd Hn. unfold get_uptime. cbn [Z.eqb].
  destruct (Z.ltb_spec (tv_nsec now - tv_nsec (hi_res_clock d)) 0);
    cbn [tv_sec tv_nsec]; lia.
Qed.

(** X14. The time of day [get_time_now] computes has the nanoseconds of the
    monotonic clock and the seconds that go with them, except when the
    monotonic clock shows no nanoseconds while the initial value showed
    some: then [ns] is a full 1000000000 and [secs] one second short. *)
Theorem get_time_now_nanoseconds (BILLION : Z) (d : time_sync) (now : timespec)
    (now_low_res : Z) :
  BILLION = 1000000000 ->
  0 <= tv_nsec (hi_res_clock d) < BILLION ->
  0 <= tv_nsec now < BILLION ->
  let t := get_time_now BILLION d 0 now now_low_res in
  let whole := low_res_clock d + tv_sec now - tv_sec (hi_res_clock d) in
  if (tv_nsec now =? 0) && (0 <? tv_nsec (hi_res_clock d))
  then secs t = whole - 1 /\ ns t = BILLION
  else secs t = whole /\ ns t = tv_nsec now.
Proof.
  intros -> Hd Hn. unfold get_time_now, get_absolute_time, get_uptime.
  cbn [Z.eqb].
  destruct (Z.ltb_spec (tv_nsec now - tv_nsec (hi_res_clock d)) 0);
    cbn [tv_sec tv_nsec]; words;
    destruct (Z.eqb_spec (tv_nsec now) 0);
    destruct (Z.ltb_spec 0 (tv_nsec (hi_res_clock d)));
    cbn [andb];
    match goal with
    | |- context [?a >? ?b] => destruct (Z.gtb_spec a b)
    end;
    cbn [secs ns]; Z.div_mod_to_equations; lia.
Qed.

(** ** Strict number parsing *)

Lemma until_nul_inv (l : list ascii) (p : ptr) (s : text) :
  until_nul l p = Ok s -> exists post, l = s ++ NUL :: post /\ is_cstring s.
Proof.
  revert p s. induction l as [|x l IH]; intros p s H; cbn [until_nul] in H.
  - discriminate.
  - destruct (Ascii.eqb_spec x NUL) as [-> | Hx].
    + inversion H. exists l. split; [reflexivity | intros []].
    + destruct (until_nul l (p + 1)) as [t| |] eqn:E; cbn [res_bind] in H;
        try discriminate.
      inversion H. subst s. destruct (IH _ _ E) as (post & -> & Ht).
      exists post. split; [reflexivity|].
      apply is_cstring_cons. split; assumption.
Qed.

Lemma c_str_inv (b : buffer) (p : ptr) (s : text) :
  c_str b p = Ok s ->
  exists pre post,
    b = pre ++ s ++ NUL :: post /\ p = Z.of_nat (length pre) /\ is_cstring s.
Proof.
  unfold c_str. destruct (in_bounds b p) eqn:Hb; [|discriminate].
  intro H. apply until_nul_inv in H. destruct H as (post & H & Hs).
  apply in_bounds_range in Hb.
  exists (firstn (Z.to_nat p) b), post. repeat split.
  - rewrite <- H. symmetry. apply firstn_skipn.
  - rewrite length_firstn. lia.
  - exact Hs.
Qed.

Section StrictProperties.

Variable isspace : ascii -> bool.
Variables ERANGE LONG_MAX LONG_MIN ULONG_MAX ULLONG_MAX : Z.
Variables strtol strtoul strtoull : text -> Z -> conversion.

(** No locale counts the terminator as white space. *)
Hypothesis isspace_nul : isspace NUL = false.

Lemma skip_space_stops (s post : text) (p : ptr) :
  exists ws,
    skip_space isspace (s ++ NUL :: post) p = Ok (p + Z.of_nat (length ws)) /\
    s = ws ++ drop_while isspace s.
Proof using isspace_nul.
  revert p. induction s as [|x s IH]; intro p; cbn [skip_space app drop_while].
  - rewrite isspace_nul. exists []. split; [f_equal; cbn; lia | reflexivity].
  - destruct (isspace x).
    + destruct (IH (p + 1)) as (ws & Hws & Hs). exists (x :: ws). split.
      * rewrite Hws. f_equal. cbn [length]. lia.
      * cbn [app]. f_equal. exact Hs.
    + exists []. split; [f_equal; cbn; lia | reflexivity].
Qed.

(** X21. [begins_with_minus] stays inside the string and tells whether the first
    character after the leading white space is a minus sign. *)
Theorem begins_with_minus_decides (b : buffer) (string : ptr) (s : text) :
  c_str b string = Ok s ->
  begins_with_minus isspace b string =
  Ok (match drop_while isspace s with
      | c :: _ => Ascii.eqb c "-"
      | [] => false
      end).
Proof using isspace_nul.
  intro H. destruct (c_str_inv _ _ _ H) as (pre & post & -> & -> & Hs).
  unfold begins_with_minus.
  destruct s as [|x s].
  - cbn [app]. rewrite in_bounds_mid, skipn_mid. cbn [skip_space].
    rewrite isspace_nul. cbn [res_bind]. rewrite load_mid. reflexivity.
  - cbn [app]. rewrite in_bounds_mid, skipn_mid.
    destruct (skip_space_stops (x :: s) post (Z.of_nat (length pre)))
      as (ws & Hws & Hsplit).
    cbn [app] in Hws. rewrite Hws. cbn [res_bind].
    destruct (drop_while isspace (x :: s)) as [|c rest] eqn:Hd.
    + rewrite (load_at _ _ (pre ++ ws) post NUL);
        [ reflexivity
        | change (pre ++ x :: s ++ NUL :: post)
            with (pre ++ (x :: s) ++ NUL :: post);
          rewrite Hsplit; layout
        | position ].
    + rewrite (load_at _ _ (pre ++ ws) (rest ++ NUL :: post) c);
        [ reflexivity
        | change (pre ++ x :: s ++ NUL :: post)
            with (pre ++ (x :: s) ++ NUL :: post);
          rewrite Hsplit; layout
        | position ].
Qed.

(** X22. [strtoul_strict] and [strtoull_strict] refuse a string whose first
    character after the leading white space is a minus sign: the result is
    0, [*end] is the start of the string and [errno] is left alone,
    whatever the library function would have done with it. *)
Theorem unsigned_strict_refuses_minus (b : buffer) (string : ptr) (s : text)
    (rest : text) (base errno : Z) :
  c_str b string = Ok s ->
  drop_while isspace s = "-" :: rest ->
  strtoul_strict isspace ERANGE ULONG_MAX strtoul b string base errno =
  Ok (0, string, errno) /\
  strtoull_strict isspace ERANGE ULLONG_MAX strtoull b string base errno =
  Ok (0, string, errno).
Proof using isspace_nul.
  intros H Hd. unfold strtoul_strict, strtoull_strict.
  rewrite (begins_with_minus_decides _ _ _ H), Hd. split; reflexivity.
Qed.

(** X23. [strtol_strict] does not clear [errno] before it calls [strtol]: when
    [strtol] returns [LONG_MAX] for a string without storing into [errno],
    the string is accepted if [errno] was anything but [ERANGE] on entry and
    refused if it was [ERANGE]. *)
Theorem strtol_strict_stale_errno (b : buffer) (string : ptr) (s : text)
    (base errno : Z) :
  c_str b string = Ok s ->
  value (strtol s base) = LONG_MAX ->
  stored_errno (strtol s base) = None ->
  strtol_strict ERANGE LONG_MAX LONG_MIN strtol b string base errno =
  if errno =? ERANGE
  then Ok (0, string, ERANGE)
  else Ok (LONG_MAX, string + consumed (strtol s base), errno).
Proof.
  intros H Hv He. unfold strtol_strict, errno_after.
  rewrite H. cbn [res_bind]. rewrite Hv, He, Z.eqb_refl. cbn [orb andb].
  destruct (Z.eqb_spec errno ERANGE) as [-> | _]; reflexivity.
Qed.

End StrictProperties.

(** ** [print_hd] *)

Section HexdumpProperties.

Variable isprint : Z -> bool.

(** One turn of the loop. *)
Lemma print_hd_loop_step (mem : buffer) (buf offset len : Z)
    (skipped_last : bool) (stderr : text) :
  print_hd_loop isprint mem buf offset len skipped_last stderr =
  if len >? 0 then
    skip <- skip_row mem buf ;;
    line <- row isprint mem buf offset len skip skipped_last ;;
    print_hd_loop isprint mem (buf + 16) (to_uint64 (offset + 16)) (len - 16)
      skip (stderr ++ line)
  else Ok stderr.
Proof.
  simp print_hd_loop.
  destruct (Z_gt_dec len 0) as [H | H]; cbn.
  - replace (len >? 0) with true by (symmetry; apply Z.gtb_lt; lia).
    destruct (skip_row mem buf) as [skip| |]; cbn; try reflexivity.
    destruct (row isprint mem buf offset len skip skipped_last); cbn;
      reflexivity.
  - replace (len >? 0) with false
      by (symmetry; rewrite Z.gtb_ltb; apply Z.ltb_ge; lia).
    reflexivity.
Qed.

Lemma span_inside (b : buffer) (p n : Z) :
  0 <= p -> 0 <= n -> p + n <= Z.of_nat (length b) ->
  span b p n = Ok (firstn (Z.to_nat n) (skipn (Z.to_nat p) b)).
Proof.
  intros Hp Hn H. unfold span.
  replace ((0 <=? n) && (0 <=? p) && (p + n <=? Z.of_nat (length b)))
    with true; [reflexivity|].
  symmetry. rewrite !andb_true_iff, !Z.leb_le. lia.
Qed.

Lemma span_outside (b : buffer) (p n : Z) :
  0 <= p -> Z.of_nat (length b) < p + n ->
  span b p n = Oob (Z.of_nat (length b)).
Proof.
  intros Hp H. unfold span.
  replace (p + n <=? Z.of_nat (length b)) with false
    by (symmetry; apply Z.leb_gt; lia).
  rewrite andb_false_r.
  replace (p <? 0) with false by (symmetry; apply Z.ltb_ge; lia).
  reflexivity.
Qed.

Lemma row_bytes_length (mem : buffer) (buf : Z) :
  0 <= buf -> buf + 16 <= Z.of_nat (length mem) ->
  length (row_bytes mem buf) = 16%nat.
Proof.
  intros Hb H. unfold row_bytes. rewrite length_firstn, length_skipn. lia.
Qed.

Lemma skip_row_inside (mem : buffer) (buf : Z) :
  0 <= buf -> buf + 16 <= Z.of_nat (length mem) ->
  exists skip,
    skip_row mem buf = Ok skip /\
    (skip = true <->
     row_bytes mem buf = sample 189 \/ row_bytes mem buf = sample 0 \/
     row_bytes mem buf = sample 255).
Proof.
  intros Hb H. unfold skip_row, memcmp.
  rewrite (span_inside mem buf 16) by lia.
  change (firstn (Z.to_nat 16) (skipn (Z.to_nat buf) mem))
    with (row_bytes mem buf).
  assert (Hl := row_bytes_length mem buf Hb H).
  cbn [res_bind].
  change (span (sample 189) 0 16) with (Ok (sample 189)).
  change (span (sample 0) 0 16) with (Ok (sample 0)).
  change (span (sample 255) 0 16) with (Ok (sample 255)).
  cbn [res_bind].
  assert (F : forall k, first_difference (row_bytes mem buf) (sample k) = 0 <->
                        row_bytes mem buf = sample k).
  { intro k. apply first_difference_zero. rewrite Hl. unfold sample.
    rewrite repeat_length. reflexivity. }
  destruct (Z.eqb_spec (first_difference (row_bytes mem buf) (sample 189)) 0)
    as [E1 | E1].
  { exists true. split; [reflexivity|]. rewrite <- F. tauto. }
  destruct (Z.eqb_spec (first_difference (row_bytes mem buf) (sample 0)) 0)
    as [E2 | E2].
  { exists true. split; [reflexivity|]. rewrite <- (F 0%nat). tauto. }
  eexists. split; [reflexivity|].
  rewrite Z.eqb_eq, <- !F. tauto.
Qed.

Lemma skip_row_outside (mem : buffer) (buf : Z) :
  0 <= buf -> Z.of_nat (length mem) < buf + 16 ->
  skip_row mem buf = Oob (Z.of_nat (length mem)).
Proof.
  intros Hb H. unfold skip_row, memcmp.
  rewrite span_outside by lia. reflexivity.
Qed.

Lemma hex_length (digits : nat) (z : Z) : length (hex digits z) = digits.
Proof.
  revert z. induction digits as [|n IH]; intro z; cbn [hex]; [reflexivity|].
  rewrite length_app, IH. cbn [length]. lia.
Qed.

Lemma each_length (range : list Z) (body : Z -> res text) (k : nat) (t : text) :
  (forall i t', body i = Ok t' -> length t' = k) ->
  each range body = Ok t -> length t = (k * length range)%nat.
Proof.
  intro Hk. revert t. induction range as [|i range IH]; intros t H;
    cbn [each] in H.
  - injection H as <-. cbn. lia.
  - destruct (body i) as [t1| |] eqn:E1; cbn [res_bind] in H; try discriminate.
    destruct (each range body) as [t2| |]; cbn [res_bind] in H;
      try discriminate.
    injection H as <-. rewrite length_app, (Hk _ _ E1), (IH _ eq_refl).
    cbn [length]. lia.
Qed.

Lemma each_inside (range : list Z) (body : Z -> res text) :
  (forall i, In i range -> exists t, body i = Ok t) ->
  exists t, each range body = Ok t.
Proof.
  induction range as [|i range IH]; intro H; cbn [each].
  - eexists; reflexivity.
  - destruct (H i (or_introl eq_refl)) as [t1 ->].
    destruct IH as [t2 ->]; [intros j Hj; apply H; right; exact Hj|].
    eexists; reflexivity.
Qed.

Lemma in_sixteen (i : Z) : In i sixteen -> 0 <= i < 16.
Proof.
  unfold sixteen. rewrite in_map_iff. intros (n & <- & Hn).
  apply in_seq in Hn. lia.
Qed.

Lemma load_inside (mem : buffer) (p : ptr) :
  0 <= p < Z.of_nat (length mem) -> exists c, load mem p = Ok c.
Proof.
  intro H. apply in_bounds_load. apply in_bounds_range. exact H.
Qed.

Lemma hex_cell_length (mem : buffer) (buf len i : Z) (t : text) :
  hex_cell mem buf len i = Ok t -> length t = 3%nat.
Proof.
  unfold hex_cell. destruct (i <? to_int32 len).
  - destruct (load mem (buf + i)) as [c| |]; cbn [res_bind]; try discriminate.
    intro H. injection H as <-. reflexivity.
  - intro H. injection H as <-. reflexivity.
Qed.

Lemma char_cell_length (mem : buffer) (buf len i : Z) (t : text) :
  char_cell isprint mem buf len i = Ok t -> length t = 1%nat.
Proof.
  unfold char_cell. destruct (i <? to_int32 len).
  - destruct (load mem (buf + i)) as [c| |]; cbn [res_bind]; try discriminate.
    intro H. injection H as <-. reflexivity.
  - intro H. injection H as <-. reflexivity.
Qed.

(** What a turn of the loop writes when the row lies inside the object. *)
Lemma row_inside (mem : buffer) (buf offset len : Z)
    (skip skipped_last : bool) :
  0 <= buf -> buf + 16 <= Z.of_nat (length mem) ->
  exists line,
    row isprint mem buf offset len skip skipped_last = Ok line /\
    (if skip then line = (if skipped_last then [] else star_line)
     else length line = 77%nat /\ last line NUL = LF).
Proof.
  intros Hb H. unfold row. destruct skip.
  - eexists. split; reflexivity.
  - destruct (each_inside sixteen (hex_cell mem buf len)) as [cells Hc].
    { intros i Hi. apply in_sixteen in Hi. unfold hex_cell.
      destruct (i <? to_int32 len); [|eexists; reflexivity].
      destruct (load_inside mem (buf + i)) as [c ->]; [lia|].
      eexists; reflexivity. }
    destruct (each_inside sixteen (char_cell isprint mem buf len))
      as [glyphs Hg].
    { intros i Hi. apply in_sixteen in Hi. unfold char_cell.
      destruct (i <? to_int32 len); [|eexists; reflexivity].
      destruct (load_inside mem (buf + i)) as [c ->]; [lia|].
      eexists; reflexivity. }
    rewrite Hc, Hg. cbn [res_bind]. eexists. split; [reflexivity|].
    split.
    + rewrite !length_app, hex_length.
      rewrite (each_length _ _ 3 _ (hex_cell_length mem buf len) Hc).
      rewrite (each_length _ _ 1 _ (char_cell_length mem buf len) Hg).
      reflexivity.
    + rewrite !app_assoc. apply last_last.
Qed.

Lemma rows_of_next (len : Z) : rows_of (len - 16) = rows_of len - 1.
Proof.
  unfold rows_of. replace (len - 16 + 15) with (len + 15 + (-1) * 16) by lia.
  rewrite Z.div_add by lia. lia.
Qed.

Lemma rows_of_positive (len : Z) : 0 < len -> 1 <= rows_of len.
Proof.
  intro H. unfold rows_of. apply Z.div_le_lower_bound; lia.
Qed.

Lemma rows_of_small (len : Z) : len <= 0 -> rows_of len <= 0.
Proof.
  intro H. unfold rows_of.
  assert ((len + 15) / 16 < 1) by (apply Z.div_lt_upper_bound; lia). lia.
Qed.

Lemma star_line_not_data (l : text) :
  length l = 77%nat -> text_eqb l star_line = false.
Proof.
  intro H. apply text_eqb_neq. intros ->. discriminate.
Qed.

Lemma print_hd_loop_lines (mem : buffer) (n : nat) :
  forall (buf offset len : Z) (skipped_last : bool) (stderr : text),
    len <= 16 * Z.of_nat n -> 0 <= buf ->
    (0 < len -> buf + 16 * rows_of len <= Z.of_nat (length mem)) ->
    exists lines,
      print_hd_loop isprint mem buf offset len skipped_last stderr =
      Ok (stderr ++ concat lines) /\
      Forall dump_line lines /\
      stars_apart skipped_last lines /\
      Z.of_nat (length lines) <= Z.max 0 (rows_of len).
Proof.
  induction n as [|n IH]; intros buf offset len sk err Hn Hb Hm;
    rewrite print_hd_loop_step.
  - replace (len >? 0) with false
      by (symmetry; rewrite Z.gtb_ltb; apply Z.ltb_ge; lia).
    exists []. cbn [concat length stars_apart]. rewrite app_nil_r.
    repeat split; [constructor | lia].
  - destruct (Z.gtb_spec len 0) as [Hl | Hl].
    2:{ exists []. cbn [concat length stars_apart]. rewrite app_nil_r.
        repeat split; [constructor | lia]. }
    assert (Hr := rows_of_positive len Hl). specialize (Hm Hl).
    destruct (skip_row_inside mem buf Hb ltac:(lia)) as (skip & -> & _).
    cbn [res_bind].
    destruct (row_inside mem buf offset len skip sk Hb ltac:(lia))
      as (line & -> & Hline).
    cbn [res_bind].
    destruct (IH (buf + 16) (to_uint64 (offset + 16)) (len - 16) skip
                (err ++ line) ltac:(lia) ltac:(lia))
      as (lines & -> & Hall & Hstars & Hcount).
    { intros _. rewrite rows_of_next. lia. }
    rewrite rows_of_next in Hcount.
    destruct skip.
    + destruct sk; subst line.
      * exists lines. rewrite app_nil_r.
        repeat split; [assumption | assumption | lia].
      * exists (star_line :: lines). cbn [concat].
        rewrite <- app_assoc. repeat split.
        -- constructor; [left; reflexivity | assumption].
        -- intros [F _]. discriminate.
        -- exact Hstars.
        -- cbn [length]. lia.
    + destruct Hline as [H77 Hlast].
      exists (line :: lines). cbn [concat]. rewrite <- app_assoc.
      repeat split.
      * constructor; [right; split; assumption | assumption].
      * intros [_ F]. subst line. discriminate.
      * rewrite (star_line_not_data _ H77). exact Hstars.
      * cbn [length]. lia.
Qed.

Lemma print_hd_loop_outside (mem : buffer) (n : nat) :
  forall (buf offset len : Z) (skipped_last : bool) (stderr : text),
    len <= 16 * Z.of_nat n -> 0 <= buf -> 0 < len ->
    Z.of_nat (length mem) < buf + 16 * rows_of len ->
    print_hd_loop isprint mem buf offset len skipped_last stderr =
    Oob (Z.of_nat (length mem)).
Proof.
  induction n as [|n IH]; intros buf offset len sk err Hn Hb Hl Hm; [lia|].
  rewrite print_hd_loop_step.
  replace (len >? 0) with true by (symmetry; apply Z.gtb_lt; lia).
  destruct (Z_lt_dec (Z.of_nat (length mem)) (buf + 16)) as [Hout | Hin].
  - rewrite skip_row_outside by lia. reflexivity.
  - destruct (skip_row_inside mem buf Hb ltac:(lia)) as (skip & -> & _).
    cbn [res_bind].
    destruct (row_inside mem buf offset len skip sk Hb ltac:(lia))
      as (line & -> & _).
    cbn [res_bind].
    assert (Hr : 1 < rows_of len) by lia.
    assert (16 < len).
    { destruct (Z_le_dec len 16); [|lia]. exfalso.
      unfold rows_of in Hr.
      assert ((len + 15) / 16 < 2) by (apply Z.div_lt_upper_bound; lia).
      lia. }
    apply IH; try lia. rewrite rows_of_next. lia.
Qed.

Lemma to_int64_small (z : Z) : 0 <= z < 2 ^ 63 -> to_int64 z = z.
Proof.
  intro H. words. rewrite Z.mod_small by lia.
  destruct (Z.ltb_spec z 9223372036854775808); lia.
Qed.

(** X10. When the rows that cover [ulength] bytes lie inside the object,
    [print_hd] returns a dump: a sequence of lines, at most one for each
    row, each the line [*] or 77 characters long, with no two [*] lines
    in a row. *)
Theorem print_hd_dump (mem : buffer) (vbuf offset ulength : Z) :
  0 <= vbuf -> 0 <= ulength < 2 ^ 63 ->
  vbuf + 16 * rows_of ulength <= Z.of_nat (length mem) ->
  exists lines,
    print_hd isprint mem vbuf offset ulength = Ok (concat lines) /\
    Forall dump_line lines /\
    stars_apart false lines /\
    Z.of_nat (length lines) <= rows_of ulength.
Proof.
  intros Hb Hu Hm. unfold print_hd. rewrite to_int64_small by exact Hu.
  destruct (print_hd_loop_lines mem (Z.to_nat ulength) vbuf
              (to_uint64 offset) ulength false [] ltac:(lia) Hb
              ltac:(intros _; exact Hm))
    as (lines & H & Hall & Hstars & Hcount).
  exists lines. repeat split; try assumption.
  assert (0 <= rows_of ulength)
    by (unfold rows_of; apply Z.div_pos; lia).
  lia.
Qed.

(** X11. [print_hd] compares whole rows of sixteen bytes: when the object ends
    before the last row that covers [ulength] bytes does, the first byte
    after the object is read.  Dumping an object of a size that is not a
    multiple of sixteen, with that size as [ulength], is such a call. *)
Theorem print_hd_reads_whole_rows (mem : buffer) (vbuf offset ulength : Z) :
  0 <= vbuf -> 0 < ulength < 2 ^ 63 ->
  Z.of_nat (length mem) < vbuf + 16 * rows_of ulength ->
  print_hd isprint mem vbuf offset ulength = Oob (Z.of_nat (length mem)).
Proof.
  intros Hb Hu Hm. unfold print_hd. rewrite to_int64_small by lia.
  apply (print_hd_loop_outside mem (Z.to_nat ulength)); lia.
Qed.

Lemma firstn_exact (r rest : list ascii) (n : nat) :
  length r = n -> firstn n (r ++ rest) = r.
Proof.
  intros <-. rewrite firstn_app, firstn_all, Nat.sub_diag. cbn [firstn].
  apply app_nil_r.
Qed.

Lemma filler_length (r : list ascii) : filler r -> length r = 16%nat.
Proof. intros [-> | [-> | ->]]; reflexivity. Qed.

Lemma print_hd_loop_fillers (rows : list (list ascii)) :
  forall (pre : buffer) (offset : Z) (skipped_last : bool) (stderr : text),
    Forall filler rows ->
    print_hd_loop isprint (pre ++ concat rows) (Z.of_nat (length pre)) offset
      (16 * Z.of_nat (length rows)) skipped_last stderr =
    Ok (stderr ++
        match rows with
        | [] => []
        | _ :: _ => if skipped_last then [] else star_line
        end).
Proof.
  induction rows as [|r rows IH]; intros pre offset sk err Hf;
    rewrite print_hd_loop_step.
  - cbn. rewrite app_nil_r. reflexivity.
  - inversion Hf as [|? ? Hr Hrows]; subst.
    assert (Hlen := filler_length r Hr).
    replace (16 * Z.of_nat (length (r :: rows)) >? 0) with true
      by (symmetry; apply Z.gtb_lt; cbn [length]; lia).
    destruct (skip_row_inside (pre ++ concat (r :: rows))
                (Z.of_nat (length pre)))
      as (skip & Hskip & Hiff); [lia | |].
    { cbn [concat]. rewrite !length_app. lia. }
    assert (Hrb : row_bytes (pre ++ concat (r :: rows))
                    (Z.of_nat (length pre)) = r).
    { unfold row_bytes. rewrite skipn_mid. cbn [concat].
      apply firstn_exact. exact Hlen. }
    assert (skip = true) as -> by (apply Hiff; rewrite Hrb; exact Hr).
    rewrite Hskip. cbn [res_bind]. unfold row. cbn [res_bind].
    replace (Z.of_nat (length pre) + 16) with (Z.of_nat (length (pre ++ r)))
      by (rewrite length_app; lia).
    replace (16 * Z.of_nat (length (r :: rows)) - 16)
      with (16 * Z.of_nat (length rows)) by (cbn [length]; lia).
    cbn [concat]. rewrite app_assoc. rewrite IH by assumption.
    f_equal. rewrite <- app_assoc. f_equal.
    destruct rows; [apply app_nil_r | apply app_nil_r].
Qed.

(** X12. A stretch of filler rows, each all [0xBD], all zero or all [0xFF], is
    dumped as the single line [*], however long it is. *)
Theorem print_hd_fillers (rows : list (list ascii)) (offset : Z) :
  rows <> [] -> Forall filler rows ->
  16 * Z.of_nat (length rows) < 2 ^ 63 ->
  print_hd isprint (concat rows) 0 offset (16 * Z.of_nat (length rows)) =
  Ok star_line.
Proof.
  intros Hne Hf Hsize. unfold print_hd. rewrite to_int64_small by lia.
  rewrite (print_hd_loop_fillers rows [] _ false [] Hf).
  destruct rows; [contradiction | reflexivity].
Qed.

End HexdumpProperties.

(** ** The command handed to [popen] *)

(** X5. The command buffer holds 254 characters: for an executable path of 238
    characters or more the address is cut off, and [run_addr2line] hands
    the same command to [popen] whatever the address is. *)
Theorem long_path_drops_address (popen_read : text -> option text)
    (executable address : text) (w : world) :
  (238 <= length executable)%nat ->
  exists found line,
    run_addr2line popen_read executable address (repeat NUL 255) 255 w =
    Ok ((found, line),
        mkWorld (out w)
          (spawned w ++ [firstn 254 (chars "addr2line -s -e " ++ executable)])).
Proof.
  intro H.
  destruct (run_addr2line_total popen_read executable address w)
    as (found & line & Hrun & _).
  exists found, line. rewrite Hrun. unfold after_popen, snprintf_cmd.
  do 4 f_equal. change (255 - 1)%nat with 254%nat.
  rewrite (app_assoc (chars "addr2line -s -e ")).
  rewrite firstn_app.
  replace (254 - length (chars "addr2line -s -e " ++ executable))%nat
    with 0%nat by (rewrite length_app; cbn [length chars list_ascii_of_string]; lia).
  cbn [firstn]. rewrite app_nil_r. reflexivity.
Qed.

(** ** More on the parser *)

(** X2. An accepted C string is what its fields reassemble to, unless its
    first closing parenthesis comes before its first opening one. *)
Theorem accepted_fields_reassemble (line : text) (s : symbol) :
  is_cstring line -> parse line = Ok (Some s) ->
  reassemble s = line \/
  exists m a f o,
    line = shape_closed_first m a f o /\ ~ In "(" m /\
    reassemble s = shape_a m f o a.
Proof.
  intros Hl H.
  destruct (accepted_shapes _ _ Hl H)
    as [(m & a & -> & ->) | [(m & f & o & a & -> & ->)
                            | (m & a & f & o & Hline & Hm & ->)]].
  - left. reflexivity.
  - left. reflexivity.
  - right. exists m, a, f, o. repeat split; assumption.
Qed.

(** ** [rand_string] *)

Lemma rand_step_nonneg (overflow : Z -> Z) (seed : Z) :
  0 <= rand_step overflow seed.
Proof.
  unfold rand_step. cbv zeta. apply Z.lxor_nonneg.
  rewrite Z.shiftr_nonneg. tauto.
Qed.

Lemma rand_string_loop_capitals (overflow : Z -> Z) (turns : nat) (seed : Z) :
  0 <= seed ->
  length (rand_string_loop overflow turns seed) = turns /\
  Forall (fun c => 65 <= uchar c <= 90) (rand_string_loop overflow turns seed).
Proof.
  revert seed. induction turns as [|turns IH]; intros seed Hs;
    cbn [rand_string_loop length].
  - split; [reflexivity | constructor].
  - destruct (IH (rand_step overflow seed) (rand_step_nonneg overflow seed))
      as [Hlen Hall].
    split; [rewrite Hlen; reflexivity|].
    constructor; [|exact Hall].
    assert (Hr : 0 <= Z.rem seed 26 < 26) by (apply Z.rem_bound_pos; lia).
    unfold uchar. rewrite nat_ascii_embedding by lia. lia.
Qed.

(** X24. [rand_string] returns [len] characters, none for a [len] below 1, and
    each of them is a capital letter, whatever the overflowing additions
    and shifts of the loop yield: the last update of the seed leaves it
    non-negative. *)
Theorem rand_string_capitals (overflow : Z -> Z) (rand len : Z) :
  0 <= rand ->
  length (rand_string overflow rand len) = Z.to_nat len /\
  Forall (fun c => 65 <= uchar c <= 90) (rand_string overflow rand len).
Proof.
  intro H. unfold rand_string. apply rand_string_loop_capitals. exact H.
Qed.

(** ** Concrete runs of the other utilities *)

Lemma repli_max_close_witness :
  time (repli_max (mk_repli_timestamp 7) (mk_repli_timestamp 9)) = 9.
Proof.
  apply (repli_max_close (mk_repli_timestamp 7) (mk_repli_timestamp 9));
    cbn; lia.
Defined.

Lemma repli_max_ahead_witness :
  repli_max (mk_repli_timestamp 4294967290) (mk_repli_timestamp 4) =
  mk_repli_timestamp 4 /\
  repli_max (mk_repli_timestamp 4) (mk_repli_timestamp 4294967290) =
  mk_repli_timestamp 4.
Proof.
  apply (repli_max_ahead (mk_repli_timestamp 4294967290) 10); cbn; lia.
Defined.

Lemma repli_max_opposite_witness :
  repli_max (mk_repli_timestamp 5) (mk_repli_timestamp 2147483653) =
  mk_repli_timestamp 2147483653 /\
  repli_max (mk_repli_timestamp 2147483653) (mk_repli_timestamp 5) =
  mk_repli_timestamp 5.
Proof.
  apply (repli_max_opposite (mk_repli_timestamp 5)
           (mk_repli_timestamp 2147483653)); cbn; lia.
Defined.

Lemma repli_max_invalid_witness :
  repli_max repli_invalid (mk_repli_timestamp 1000) = mk_repli_timestamp 1000 /\
  repli_max (mk_repli_timestamp 1000) repli_invalid = mk_repli_timestamp 1000.
Proof.
  apply (repli_max_invalid (mk_repli_timestamp 1000)). cbn. lia.
Defined.

Lemma repli_max_distant_past_witness :
  time (repli_max repli_distant_past (mk_repli_timestamp 3000000000)) = 0.
Proof.
  apply (repli_max_distant_past (mk_repli_timestamp 3000000000)). cbn. lia.
Defined.

Lemma gcd_is_gcd_witness : gcd 12 18 = Some (Z.gcd 12 18).
Proof. apply (gcd_is_gcd 12 18); lia. Defined.

Lemma gcd_up_to_sign_witness :
  exists r,
    gcd 4 (-6) = Some r /\ INT_MIN <= r <= INT_MAX /\ Z.abs r = Z.gcd 4 (-6).
Proof.
  apply (gcd_up_to_sign 4 (-6)); unfold INT_MIN, INT_MAX; lia.
Defined.

Lemma sized_strcmp_lexicographic_witness :
  exists r,
    sized_strcmp (chars "apple pie") 5 (chars "apples") 6 = Ok r /\
    (r ?= 0) = lex_compare (chars "apple") (chars "apples").
Proof.
  apply (sized_strcmp_lexicographic (chars "apple pie") (chars "apples") 5 6);
    cbn; lia.
Defined.

Lemma sized_strcmp_zero_iff_equal_witness :
  sized_strcmp (chars "key-1") 3 (chars "keyhole") 3 = Ok 0 <->
  chars "key" = chars "key".
Proof.
  apply (sized_strcmp_zero_iff_equal (chars "key-1") (chars "keyhole") 3 3);
    cbn; lia.
Defined.

Lemma sized_strcmp_swap_witness :
  exists r r',
    sized_strcmp (chars "abc") 3 (chars "abd") 3 = Ok r /\
    sized_strcmp (chars "abd") 3 (chars "abc") 3 = Ok r' /\
    Z.sgn r' = - Z.sgn r.
Proof.
  apply (sized_strcmp_swap (chars "abc") (chars "abd") 3 3); cbn; lia.
Defined.

Lemma get_uptime_normalised_witness :
  let up := get_uptime 1000000000
              (mk_time_sync (mk_timespec 100 900000000) 1300000000) 0
              (mk_timespec 103 200000000) 0 in
  0 <= tv_nsec up < 1000000000 /\
  tv_sec up * 1000000000 + tv_nsec up =
  (103 * 1000000000 + 200000000) - (100 * 1000000000 + 900000000).
Proof.
  apply (get_uptime_normalised 1000000000
           (mk_time_sync (mk_timespec 100 900000000) 1300000000)
           (mk_timespec 103 200000000) 0); cbn; lia.
Defined.

Lemma get_time_now_nanoseconds_witness :
  let t := get_time_now 1000000000
             (mk_time_sync (mk_timespec 100 900000000) 1300000000) 0
             (mk_timespec 103 0) 0 in
  secs t = 1300000000 + 103 - 100 - 1 /\ ns t = 1000000000.
Proof.
  apply (get_time_now_nanoseconds 1000000000
           (mk_time_sync (mk_timespec 100 900000000) 1300000000)
           (mk_timespec 103 0) 0); cbn; lia.
Defined.

Lemma begins_with_minus_decides_witness :
  begins_with_minus Libc.isspace (c_object (chars "  -12")) 0 = Ok true.
Proof.
  apply (begins_with_minus_decides Libc.isspace eq_refl
           (c_object (chars "  -12")) 0 (chars "  -12")).
  reflexivity.
Defined.

Lemma unsigned_strict_refuses_minus_witness :
  strtoul_strict Libc.isspace Libc.ERANGE Libc.ULONG_MAX Libc.strtoul
    (c_object (chars " -1")) 0 10 0 = Ok (0, 0, 0) /\
  strtoull_strict Libc.isspace Libc.ERANGE Libc.ULLONG_MAX Libc.strtoul
    (c_object (chars " -1")) 0 10 0 = Ok (0, 0, 0).
Proof.
  apply (unsigned_strict_refuses_minus Libc.isspace Libc.ERANGE Libc.ULONG_MAX
           Libc.ULLONG_MAX Libc.strtoul Libc.strtoul eq_refl
           (c_object (chars " -1")) 0 (chars " -1") (chars "1") 10 0);
    reflexivity.
Defined.

Lemma strtol_strict_stale_errno_witness :
  strtol_strict Libc.ERANGE Libc.LONG_MAX Libc.LONG_MIN Libc.strtol
    (c_object (chars "9223372036854775807")) 0 10 Libc.ERANGE =
  Ok (0, 0, Libc.ERANGE) /\
  strtol_strict Libc.ERANGE Libc.LONG_MAX Libc.LONG_MIN Libc.strtol
    (c_object (chars "9223372036854775807")) 0 10 0 =
  Ok (9223372036854775807, 19, 0).
Proof.
  split.
  - apply (strtol_strict_stale_errno Libc.ERANGE Libc.LONG_MAX Libc.LONG_MIN
             Libc.strtol (c_object (chars "9223372036854775807")) 0
             (chars "9223372036854775807") 10 Libc.ERANGE); reflexivity.
  - apply (strtol_strict_stale_errno Libc.ERANGE Libc.LONG_MAX Libc.LONG_MIN
             Libc.strtol (c_object (chars "9223372036854775807")) 0
             (chars "9223372036854775807") 10 0); reflexivity.
Defined.

Lemma print_hd_dump_witness :
  exists lines,
    print_hd Libc.isprint
      (chars "Hello, world! 0123456789abcdef++") 0 4096 30 =
    Ok (concat lines) /\
    Forall dump_line lines /\ stars_apart false lines /\
    Z.of_nat (length lines) <= rows_of 30.
Proof.
  apply (print_hd_dump Libc.isprint
           (chars "Hello, world! 0123456789abcdef++") 0 4096 30);
    cbn; lia.
Defined.

Lemma print_hd_reads_whole_rows_witness :
  print_hd Libc.isprint (chars "Hello, world! 0123456789abcdef") 0 0 30 =
  Oob 30.
Proof.
  apply (print_hd_reads_whole_rows Libc.isprint
           (chars "Hello, world! 0123456789abcdef") 0 0 30); cbn; lia.
Defined.

Lemma print_hd_fillers_witness :
  print_hd Libc.isprint (concat [sample 0; sample 0; sample 255; sample 189])
    0 0 (16 * 4) = Ok star_line.
Proof.
  apply (print_hd_fillers Libc.isprint
           [sample 0; sample 0; sample 255; sample 189] 0).
  - discriminate.
  - repeat apply Forall_cons; try apply Forall_nil; unfold filler; auto.
  - cbn. lia.
Defined.

Lemma long_path_drops_address_witness :
  exists found line,
    run_addr2line addr2line_demo (repeat "p" 240) (chars "0x4005a0")
      (repeat NUL 255) 255 start =
    Ok ((found, line),
        mkWorld []
          [firstn 254 (chars "addr2line -s -e " ++ repeat "p" 240)]).
Proof.
  apply (long_path_drops_address addr2line_demo (repeat "p" 240)
           (chars "0x4005a0") start).
  cbn. lia.
Defined.

Lemma parse_total_witness :
  (exists r, parse (chars "./prog [0x4005a0]") = Ok r) \/
  (parse (chars "./prog [0x4005a0]") = Oob (-1) /\
   exists rest, chars "./prog [0x4005a0]" = "[" :: rest /\
                ~ In "(" (chars "./prog [0x4005a0]")).
Proof.
  apply (parse_total (chars "./prog [0x4005a0]")). concrete.
Defined.

Lemma accepted_line_ends_with_bracket_witness :
  last (chars "./prog [0x4005a0]") NUL = "]".
Proof.
  apply (accepted_line_ends_with_bracket (chars "./prog [0x4005a0]")
           (mkSymbol (chars "./prog") None None (chars "0x4005a0"))).
  - concrete.
  - intros pre post H. exfalso.
    assert (Hin : In ")" (chars "./prog [0x4005a0]"))
      by (rewrite H; apply in_elt).
    cbn in Hin. intuition discriminate.
  - concrete.
Defined.

Lemma report_always_rendered_witness :
  exists lines,
    print_backtrace Itanium.demangle addr2line_demo
      (Some [chars "./prog(_Z3fooi+0x10) [0x4005a0]"; chars "garbage"])
      true start =
    Ok (tt, mkWorld (out start ++ concat lines)
              (spawned start ++
               flat_map (frame_commands true)
                 [chars "./prog(_Z3fooi+0x10) [0x4005a0]"; chars "garbage"])) /\
    report_lines Itanium.demangle true 0
      [chars "./prog(_Z3fooi+0x10) [0x4005a0]"; chars "garbage"] lines.
Proof.
  apply (report_always_rendered Itanium.demangle addr2line_demo true
           [chars "./prog(_Z3fooi+0x10) [0x4005a0]"; chars "garbage"] start).
  repeat constructor; try concrete; eexists; vm_compute; reflexivity.
Defined.

Lemma accepted_fields_reassemble_witness :
  reassemble (mkSymbol (chars "./prog") None None (chars "0x4005a0")) =
  chars "./prog [0x4005a0]" \/
  exists m a f o,
    chars "./prog [0x4005a0]" = shape_closed_first m a f o /\ ~ In "(" m /\
    reassemble (mkSymbol (chars "./prog") None None (chars "0x4005a0")) =
    shape_a m f o a.
Proof.
  apply (accepted_fields_reassemble (chars "./prog [0x4005a0]")
           (mkSymbol (chars "./prog") None None (chars "0x4005a0")));
    concrete.
Defined.

Lemma rand_string_capitals_witness :
  length (rand_string to_int32 1804289383 8) = 8%nat /\
  Forall (fun c => 65 <= uchar c <= 90) (rand_string to_int32 1804289383 8).
Proof.
  apply (rand_string_capitals to_int32 1804289383 8). lia.
Defined.

Example rand_string_run :
  rand_string to_int32 1804289383 8 = chars "NGEPXJFM".
Proof. vm_compute. reflexivity. Qed.
